(** * pyMOI: haplotype calling and MOI estimation (src/pymoi/main.py, models.py)

    A shallow embedding of the estimator.  Python exceptions are the error
    case of a small result monad; dicts and [collections.Counter] are
    association lists kept in insertion order; [min_count] (a Python float)
    is a rational number. *)

From Stdlib Require Import List String Ascii ZArith QArith Lia Bool.
From Stdlib Require Import Sorting Permutation Lqa.
Import ListNotations.
Open Scope Z_scope.

(** ** Python errors and the result monad *)

Inductive py_error :=
| IndexError
| TypeError
| ValueError
| OverflowError.

Inductive result (A : Type) :=
| Ok (a : A)
| Error (e : py_error).
Arguments Ok {A} a.
Arguments Error {A} e.

Definition bind {A B} (m : result A) (k : A -> result B) : result B :=
  match m with
  | Ok a => k a
  | Error e => Error e
  end.

Notation "x <- m ;; k" := (bind m (fun x => k))
  (at level 61, m at next level, right associativity).

(** [l[i]] on a Python list or string. *)
Definition py_index {A} (l : list A) (i : nat) : result A :=
  match nth_error l i with
  | Some x => Ok x
  | None => Error IndexError
  end.

(** A Python [for] loop that stops at the first exception. *)
Fixpoint map_result {A B} (f : A -> result B) (l : list A) : result (list B) :=
  match l with
  | [] => Ok []
  | x :: xs => y <- f x ;; ys <- map_result f xs ;; Ok (y :: ys)
  end.

(** ** collections.Counter

    [Counter(xs)] adds one to [self[x]] for each [x], inserting a new key
    at the end of the dict. *)
Section Counter.
Variable A : Type.
Variable eq_dec : forall x y : A, {x = y} + {x <> y}.

Fixpoint counter_incr (x : A) (d : list (A * nat)) : list (A * nat) :=
  match d with
  | [] => [(x, 1%nat)]
  | (k, v) :: d' =>
      if eq_dec x k then (k, S v) :: d' else (k, v) :: counter_incr x d'
  end.

Definition counter (xs : list A) : list (A * nat) :=
  fold_left (fun d x => counter_incr x d) xs [].

(** [d.get(k, 0)] *)
Fixpoint counter_get (k : A) (d : list (A * nat)) : nat :=
  match d with
  | [] => 0
  | (k', v) :: d' => if eq_dec k k' then v else counter_get k d'
  end.

(** [sum(d.values())] *)
Definition sum_values (d : list (A * nat)) : nat :=
  fold_right (fun kv s => (snd kv + s)%nat) 0%nat d.
End Counter.
Arguments counter_incr {A} eq_dec x d.
Arguments counter {A} eq_dec xs.
Arguments counter_get {A} eq_dec k d.
Arguments sum_values {A} d.

(** ** models.py *)

Record GenomePosition := mkPos { chrom : string; pos : Z }.

Record GenomeRange := mkRange { r_chrom : string; r_start : Z; r_end : Z }.

Definition GenomePosition_eq_dec (a b : GenomePosition) : {a = b} + {a <> b}.
Proof. decide equality; [apply Z.eq_dec | apply string_dec]. Defined.

(** [GenomePosition.__lt__]: raises [ValueError] across chromosomes. *)
Definition pos_lt (a b : GenomePosition) : result bool :=
  if string_dec (chrom a) (chrom b) then Ok (pos a <? pos b)
  else Error ValueError.

(** [GenomeRange.__contains__] *)
Definition range_contains (gr : GenomeRange) (p : GenomePosition) : bool :=
  if string_dec (chrom p) (r_chrom gr)
  then (r_start gr <=? pos p) && (pos p <=? r_end gr)
  else false.

(** Python's [min]: [item < current] for each further item. *)
Fixpoint py_min_from (m : GenomePosition) (xs : list GenomePosition)
  : result GenomePosition :=
  match xs with
  | [] => Ok m
  | y :: ys => c <- pos_lt y m ;; py_min_from (if c then y else m) ys
  end.

(** Python's [max]: [item > current]; [GenomePosition] has no [__gt__],
    so Python falls back to the reflected [current.__lt__(item)]. *)
Fixpoint py_max_from (m : GenomePosition) (xs : list GenomePosition)
  : result GenomePosition :=
  match xs with
  | [] => Ok m
  | y :: ys => c <- pos_lt m y ;; py_max_from (if c then y else m) ys
  end.

Definition py_min (xs : list GenomePosition) : result GenomePosition :=
  match xs with [] => Error ValueError | x :: xs' => py_min_from x xs' end.

Definition py_max (xs : list GenomePosition) : result GenomePosition :=
  match xs with [] => Error ValueError | x :: xs' => py_max_from x xs' end.

(** ** Aligned reads (pysam.AlignedSegment)

    [aligned_pairs] is [read.get_aligned_pairs(with_seq=True)]: triples of
    read offset, 0-based reference coordinate and reference base, the
    latter lowercase at a mismatch; [None] marks the side of an indel.
    pysam computes the reference bases from the read's MD tag and raises
    [ValueError] for a read without one; the model covers reads that carry
    it.  [query_qualities] is [None] for a read without a quality string. *)
Record read := mkRead {
  reference_name : string;
  reference_start : Z;
  reference_end : Z;
  mapping_quality : Z;
  is_secondary : bool;
  is_supplementary : bool;
  is_unmapped : bool;
  query_sequence : list ascii;
  query_qualities : option (list Z);
  aligned_pairs : list (option nat * option nat * option ascii)
}.

(** [str.islower] and [str.upper] on a one-character string. *)
Definition ascii_islower (c : ascii) : bool :=
  let n := nat_of_ascii c in (Nat.leb 97 n && Nat.leb n 122)%bool.

Definition ascii_upper (c : ascii) : ascii :=
  if ascii_islower c then ascii_of_nat (nat_of_ascii c - 32) else c.

(** [p in positions] *)
Definition py_in (p : GenomePosition) (ps : list GenomePosition) : bool :=
  existsb (fun q => if GenomePosition_eq_dec p q then true else false) ps.

(** [alleles.get(p)] on the dict built by [get_alleles]. *)
Fixpoint dict_get (p : GenomePosition) (d : list (GenomePosition * ascii))
  : option ascii :=
  match d with
  | [] => None
  | (k, v) :: d' => if GenomePosition_eq_dec p k then Some v else dict_get p d'
  end.

(** [alleles[p] = v]: an existing key keeps its place in the dict. *)
Fixpoint dict_set (p : GenomePosition) (v : ascii)
  (d : list (GenomePosition * ascii)) : list (GenomePosition * ascii) :=
  match d with
  | [] => [(p, v)]
  | (k, w) :: d' =>
      if GenomePosition_eq_dec p k then (k, v) :: d' else (k, w) :: dict_set p v d'
  end.

(** [read.query_qualities[read_pos]]: subscripting [None] is a [TypeError]. *)
Definition quality_at (r : read) (i : nat) : result Z :=
  match query_qualities r with
  | None => Error TypeError
  | Some qs => py_index qs i
  end.

(** The body of the loop of [get_alleles] for one aligned pair. *)
Definition get_alleles_step (r : read) (positions : list GenomePosition)
  (alleles : list (GenomePosition * ascii))
  (pair : option nat * option nat * option ascii)
  : result (list (GenomePosition * ascii)) :=
  let '(read_pos, ref_pos, read_nt) := pair in
  match read_nt with
  | None => Ok alleles
  | Some nt =>
      match read_pos with
      | None => Ok alleles
      | Some i =>
          match ref_pos with
          | None => Error TypeError  (* [None + 1] *)
          | Some rp =>
              let p := mkPos (reference_name r) (Z.of_nat rp + 1) in
              if negb (py_in p positions) then Ok alleles
              else
                q <- quality_at r i ;;
                if q <? 12 then Ok alleles
                else
                  nt' <- (if ascii_islower nt
                          then b <- py_index (query_sequence r) i ;; Ok (ascii_upper b)
                          else Ok nt) ;;
                  Ok (dict_set p nt' alleles)
          end
      end
  end.

Fixpoint get_alleles_loop (r : read) (positions : list GenomePosition)
  (alleles : list (GenomePosition * ascii))
  (pairs : list (option nat * option nat * option ascii))
  : result (list (GenomePosition * ascii)) :=
  match pairs with
  | [] => Ok alleles
  | pr :: prs =>
      alleles' <- get_alleles_step r positions alleles pr ;;
      get_alleles_loop r positions alleles' prs
  end.

(** [get_alleles(read, positions)] *)
Definition get_alleles (r : read) (positions : list GenomePosition)
  : result (list (option ascii)) :=
  alleles <- get_alleles_loop r positions [] (aligned_pairs r) ;;
  Ok (map (fun p => dict_get p alleles) positions).

(** [bam.fetch(contig, start, end)] of pysam (a library outside this
    repository): the reads on [contig] overlapping the 0-based half-open
    interval [[start, end)]. *)
Definition fetch (bam : list read) (contig : string) (start end_ : Z) : list read :=
  filter (fun r => (String.eqb (reference_name r) contig
                    && (reference_start r <? end_) && (start <? reference_end r))%bool)
    bam.

(** [all(alleles)]: a call is a one-character string, [None] is falsy. *)
Fixpoint all_calls (calls : list (option ascii)) : option (list ascii) :=
  match calls with
  | [] => Some []
  | None :: _ => None
  | Some c :: cs =>
      match all_calls cs with Some l => Some (c :: l) | None => None end
  end.

(** [''.join(alleles)] *)
Definition join (cs : list ascii) : string := fold_right String EmptyString cs.

(** The read filter and the per-read body of [get_haplotype_counts]. *)
Definition read_passes (r : read) : bool :=
  negb (mapping_quality r <? 10) && negb (is_secondary r)
  && negb (is_supplementary r) && negb (is_unmapped r).

Fixpoint collect_combinations (positions : list GenomePosition) (reads : list read)
  : result (list string) :=
  match reads with
  | [] => Ok []
  | r :: rs =>
      if read_passes r then
        alleles <- get_alleles r positions ;;
        rest <- collect_combinations positions rs ;;
        Ok (match all_calls alleles with
            | Some cs => join cs :: rest
            | None => rest
            end)
      else collect_combinations positions rs
  end.

(** [get_haplotype_counts(bam, positions)] *)
Definition get_haplotype_counts (bam : list read) (positions : list GenomePosition)
  : result (list (string * nat)) :=
  first <- py_index positions 0 ;;
  let c := chrom first in
  lo <- py_min positions ;;
  hi <- py_max positions ;;
  combos <- collect_combinations positions (fetch bam c (pos lo) (pos hi)) ;;
  Ok (counter string_dec combos).

(** ** Abundance filter

    [min_count] is a Python float, modelled as an exact rational; read
    counts are [int]s, compared with it as numbers. *)
Definition qltb (a b : Q) : bool := negb (Qle_bool b a).

Definition Q_of_nat (n : nat) : Q := inject_Z (Z.of_nat n).

(** Lines 63-69 of [get_num_haplotype]: the number of entries of the
    [Counter] that survive the filter, with the threshold
    [sum(counts.values()) * min_count] computed exactly.  The program
    computes it in floating point: [filtered_counts_float] below. *)
Definition filtered_counts (counts : list (string * nat)) (min_count : Q)
  : list (string * nat) :=
  if qltb min_count 1 then
    let temp_count := (Q_of_nat (sum_values counts) * min_count)%Q in
    filter (fun kv => qltb temp_count (Q_of_nat (snd kv))) counts
  else filter (fun kv => qltb min_count (Q_of_nat (snd kv))) counts.

Definition num_haplotype_of_counts (counts : list (string * nat)) (min_count : Q)
  : nat :=
  List.length (filtered_counts counts min_count).

(** [get_num_haplotype(bam, positions, min_count)] *)
Definition get_num_haplotype (bam : list read) (positions : list GenomePosition)
  (min_count : Q) : result nat :=
  counts <- get_haplotype_counts bam positions ;;
  Ok (num_haplotype_of_counts counts min_count).

(** ** Binary64 arithmetic of the threshold

    Python evaluates [sum(counts.values()) * min_count] with [min_count] a
    float (the CLI parses it with [type=float]): the [int] is converted to
    the nearest double ([OverflowError] if it is too large), the product
    is rounded to the nearest double, ties to even, and overflows to an
    infinity; [v > temp_count] compares the [int] and the float exactly. *)
Inductive fval :=
| Fin (q : Q)
| Inf (negative : bool).

Definition pow2 (z : Z) : Q :=
  if (0 <=? z)%Z then inject_Z (2 ^ z) else 1 # Z.to_pos (2 ^ (- z)).

(** The double nearest to a positive rational (ties to even), or [None]
    when it is at least [2^1024].  [e] is [floor (log2 x)], [p] the
    exponent of the unit in the last place (at least [-1074], the
    subnormal range), [k'] the rounded significand; [v] in lowest terms. *)
Definition round_pos (x : Q) : option Q :=
  let n := Qnum x in
  let d := Zpos (Qden x) in
  let e0 := (Z.log2 n - Z.log2 d)%Z in
  let e := if Qle_bool (pow2 e0) x then e0 else (e0 - 1)%Z in
  let p := Z.max (e - 52) (-1074) in
  let a := if (0 <=? p)%Z then n else (n * 2 ^ (- p))%Z in
  let b := if (0 <=? p)%Z then (d * 2 ^ p)%Z else d in
  let k := (a / b)%Z in
  let r := (a mod b)%Z in
  let k' := if (2 * r <? b)%Z then k
            else if (b <? 2 * r)%Z then (k + 1)%Z
            else if Z.even k then k else (k + 1)%Z in
  let v := Qred (inject_Z k' * pow2 p) in
  if Qle_bool (pow2 1024) v then None else Some v.

(** The float result of an exact rational value. *)
Definition fround (x : Q) : fval :=
  match Qcompare x 0 with
  | Eq => Fin 0
  | Gt => match round_pos x with Some v => Fin v | None => Inf false end
  | Lt => match round_pos (- x) with Some v => Fin (- v) | None => Inf true end
  end.

(** [float(n)] for a Python [int]. *)
Definition float_of_nat (n : nat) : result Q :=
  match n with
  | O => Ok 0%Q
  | S _ => match round_pos (Q_of_nat n) with
           | Some v => Ok v
           | None => Error OverflowError
           end
  end.

(** [temp_count = sum(counts.values()) * min_count] *)
Definition threshold_float (total : nat) (min_count : Q) : result fval :=
  s <- float_of_nat total ;; Ok (fround (s * min_count)%Q).

(** [v > temp_count] for an [int] [v]. *)
Definition nat_gt_fval (v : nat) (t : fval) : bool :=
  match t with
  | Fin q => qltb q (Q_of_nat v)
  | Inf negative => negative
  end.

(** Lines 63-69 of [get_num_haplotype] with the threshold in floating
    point, as the program computes it. *)
Definition filtered_counts_float (counts : list (string * nat)) (min_count : Q)
  : result (list (string * nat)) :=
  if qltb min_count 1 then
    temp_count <- threshold_float (sum_values counts) min_count ;;
    Ok (filter (fun kv => nat_gt_fval (snd kv) temp_count) counts)
  else Ok (filter (fun kv => qltb min_count (Q_of_nat (snd kv))) counts).

Definition num_haplotype_of_counts_float (counts : list (string * nat)) (min_count : Q)
  : result nat :=
  kept <- filtered_counts_float counts min_count ;; Ok (List.length kept).

(** ** Triplet selection *)

(** A record of the VCF: [var.contig], [var.pos]. *)
Record variant := mkVariant { contig : string; vpos : Z }.

(** [[p for p in snp_positions if p in gr]] for the window of anchor [p]. *)
Definition window_positions (snp_positions : list GenomePosition)
  (p : GenomePosition) (maxdist : Z) : list GenomePosition :=
  let gr := mkRange (chrom p) (pos p) (pos p + maxdist) in
  filter (range_contains gr) snp_positions.

(** Lines 75-77 of [get_triplets]: the SNP positions in VCF order. *)
Definition snp_positions_of (vcf : list variant) : list GenomePosition :=
  map (fun v => mkPos (contig v) (vpos v)) vcf.

(** [get_triplets(vcf, maxdist)] *)
Definition get_triplets (vcf : list variant) (maxdist : Z)
  : list (list GenomePosition) :=
  let snp_positions := snp_positions_of vcf in
  fold_left
    (fun triplets p =>
       let positions := firstn 3 (window_positions snp_positions p maxdist) in
       if Nat.eqb (List.length positions) 3 then triplets ++ [positions] else triplets)
    snp_positions [].

(** ** Aggregation in [main] *)

(** [list.sort()] on a list of ints: the result is the ascending sorted
    permutation, computed here by insertion. *)
Fixpoint insert_sorted (x : nat) (l : list nat) : list nat :=
  match l with
  | [] => [x]
  | y :: l' => if Nat.leb x y then x :: l else y :: insert_sorted x l'
  end.

Fixpoint sort_nat (l : list nat) : list nat :=
  match l with
  | [] => []
  | x :: l' => insert_sorted x (sort_nat l')
  end.

(** [int(n * 0.9)]: for every list length [n] the float product rounds to
    a value whose integer part is [floor (9 n / 10)]. *)
Definition percentile_index (n : nat) : nat := Nat.div (n * 9) 10.

Record MoiResult := mkMoiResult {
  moi : nat;
  haplotype_counts : list (nat * nat)
}.

(** Lines 105-122 of [main], from the per-triplet values of
    [get_num_haplotype] on. *)
Definition aggregate (nums : list nat) : result MoiResult :=
  let haplotype_counts := sort_nat (filter (fun n => Nat.ltb 0 n) nums) in
  let count := counter Nat.eq_dec haplotype_counts in
  m <- py_index haplotype_counts (percentile_index (List.length haplotype_counts)) ;;
  Ok (mkMoiResult m count).

(** Lines 93-104 of [main]: [get_num_haplotype] for every triplet. *)
Definition triplet_counts (bam : list read) (vcf : list variant) (min_count : Q)
  (maxdist : Z) : result (list nat) :=
  map_result (fun positions => get_num_haplotype bam positions min_count)
    (get_triplets vcf maxdist).

(** [main(bam, vcf, outfile, min_count, maxdist)], without the printing
    and the JSON file. *)
Definition main (bam : list read) (vcf : list variant) (min_count : Q)
  (maxdist : Z) : result MoiResult :=
  nums <- triplet_counts bam vcf min_count maxdist ;;
  aggregate nums.

(** ** Example inputs

    Three SNPs of chromosome [chr1] and reads of 101 bases aligned without
    indels over reference coordinates 100..200 (1-based).  A read whose
    base differs from the reference reports the reference base in lowercase,
    as [get_aligned_pairs(with_seq=True)] does. *)
(** The double a Python float literal denotes. *)
Definition dbl (x : Q) : Q :=
  match fround x with Fin v => v | Inf _ => x end.

Definition example_vcf : list variant :=
  [mkVariant "chr1" 100; mkVariant "chr1" 150; mkVariant "chr1" 200].

Definition example_markers : list GenomePosition :=
  [mkPos "chr1" 100; mkPos "chr1" 150; mkPos "chr1" 200].

Definition example_read (base ref_nt : ascii) (quals : option (list Z)) : read :=
  mkRead "chr1" 99 200 60 false false false (repeat base 101) quals
    (map (fun i => (Some i, Some (99 + i)%nat, Some ref_nt)) (seq 0 101)).

Definition good_quals : option (list Z) := Some (repeat 30 101).

Definition read_A : read := example_read "A" "A" good_quals.
Definition read_C : read := example_read "C" "a" good_quals.

(** ** Properties used in the statements *)

(** The SNPs of each chromosome appear in non-decreasing coordinate order. *)
Definition sorted_within_chrom (snps : list GenomePosition) : Prop :=
  forall c, StronglySorted (fun a b => pos a <= pos b)
                           (filter (fun q => String.eqb (chrom q) c) snps).

(** The SNPs of each chromosome appear in strictly increasing coordinate
    order (no position repeated). *)
Definition strictly_sorted_within_chrom (snps : list GenomePosition) : Prop :=
  forall c, StronglySorted (fun a b => pos a < pos b)
                           (filter (fun q => String.eqb (chrom q) c) snps).

(** What [get_aligned_pairs(with_seq=True)] of pysam guarantees at an
    aligned base: a reference base reported in uppercase is a match, so the
    read carries the same base at that offset. *)
Definition pysam_match_contract (r : read) : Prop :=
  forall i rp nt, In (Some i, Some rp, Some nt) (aligned_pairs r) ->
    ascii_islower nt = false ->
    exists b, nth_error (query_sequence r) i = Some b /\ nt = ascii_upper b.

(** Position [p] is observed by [r] in an aligned (non-indel) pair whose
    base quality is at least 12, and [c] is the read's base there,
    uppercased. *)
Definition qualifying_call (r : read) (p : GenomePosition) (c : ascii) : Prop :=
  exists i rp nt qs q b,
    In (Some i, Some rp, Some nt) (aligned_pairs r)
    /\ p = mkPos (reference_name r) (Z.of_nat rp + 1)
    /\ query_qualities r = Some qs /\ nth_error qs i = Some q /\ 12 <= q
    /\ nth_error (query_sequence r) i = Some b /\ c = ascii_upper b.

(** [r] has an aligned (non-indel) pair at one of [positions]. *)
Definition aligned_at_marker (r : read) (positions : list GenomePosition) : Prop :=
  exists i rp nt, In (Some i, Some rp, Some nt) (aligned_pairs r)
                  /\ py_in (mkPos (reference_name r) (Z.of_nat rp + 1)) positions = true.

(** * Proofs *)

(** ** Counter *)

Section CounterFacts.
Variable A : Type.
Variable eq_dec : forall x y : A, {x = y} + {x <> y}.

Lemma counter_get_incr (k x : A) (d : list (A * nat)) :
  counter_get eq_dec k (counter_incr eq_dec x d)
  = (counter_get eq_dec k d + if eq_dec x k then 1 else 0)%nat.
Proof.
  induction d as [|[k' v] d' IH]; simpl.
  - destruct (eq_dec k x), (eq_dec x k); subst; congruence.
  - destruct (eq_dec x k') as [Hx|Hx]; simpl.
    + subst k'. destruct (eq_dec k x), (eq_dec x k); subst; try congruence; lia.
    + destruct (eq_dec k k') as [Hk|Hk]; [|exact IH].
      subst k'. destruct (eq_dec x k); [congruence | lia].
Qed.

Lemma counter_get_fold (k : A) (xs : list A) (d : list (A * nat)) :
  counter_get eq_dec k (fold_left (fun d x => counter_incr eq_dec x d) xs d)
  = (counter_get eq_dec k d + count_occ eq_dec xs k)%nat.
Proof.
  revert d; induction xs as [|x xs IH]; intros d; simpl; [lia|].
  rewrite IH, counter_get_incr. destruct (eq_dec x k); lia.
Qed.

Lemma counter_get_counter (k : A) (xs : list A) :
  counter_get eq_dec k (counter eq_dec xs) = count_occ eq_dec xs k.
Proof. unfold counter. rewrite counter_get_fold. reflexivity. Qed.

Lemma sum_values_incr (x : A) (d : list (A * nat)) :
  sum_values (counter_incr eq_dec x d) = S (sum_values d).
Proof.
  unfold sum_values in *.
  induction d as [|[k v] d' IH]; simpl; [reflexivity|].
  destruct (eq_dec x k); simpl; [reflexivity|]. rewrite IH. lia.
Qed.

Lemma sum_values_counter (xs : list A) :
  sum_values (counter eq_dec xs) = List.length xs.
Proof.
  unfold counter.
  assert (H : forall d, sum_values (fold_left (fun d x => counter_incr eq_dec x d) xs d)
                        = (sum_values d + List.length xs)%nat).
  { induction xs as [|x xs IH]; intros d; simpl; [lia|].
    rewrite IH, sum_values_incr. lia. }
  rewrite H. reflexivity.
Qed.

(** A dict as [Counter] keeps it: distinct keys, positive counts. *)
Definition counter_wf (d : list (A * nat)) : Prop :=
  NoDup (map fst d) /\ Forall (fun kv => 0 < snd kv)%nat d.

Lemma in_keys_incr (k x : A) (d : list (A * nat)) :
  In k (map fst (counter_incr eq_dec x d)) <-> k = x \/ In k (map fst d).
Proof.
  induction d as [|[k' v] d' IH]; simpl; [intuition congruence|].
  destruct (eq_dec x k'); simpl; [subst; intuition congruence|].
  rewrite IH. intuition congruence.
Qed.

Lemma counter_wf_incr (x : A) (d : list (A * nat)) :
  counter_wf d -> counter_wf (counter_incr eq_dec x d).
Proof.
  intros [Hnd Hpos]. induction d as [|[k v] d' IH]; simpl.
  - split; repeat constructor; simpl; auto.
  - simpl in Hnd. inversion Hnd as [|? ? Hnin Hnd']; subst.
    inversion Hpos as [|? ? Hv Hpos']; subst.
    destruct (eq_dec x k) as [->|Hxk].
    + split; [exact Hnd|]. constructor; simpl; [lia|exact Hpos'].
    + destruct (IH Hnd' Hpos') as [Hnd2 Hpos2]. split.
      * simpl. constructor; [|exact Hnd2]. rewrite in_keys_incr.
        intros [->|Hin]; [congruence|contradiction].
      * constructor; assumption.
Qed.

Lemma counter_wf_counter (xs : list A) : counter_wf (counter eq_dec xs).
Proof.
  unfold counter.
  assert (H : forall d, counter_wf d ->
              counter_wf (fold_left (fun d x => counter_incr eq_dec x d) xs d)).
  { induction xs as [|x xs IH]; intros d Hd; simpl; [exact Hd|].
    apply IH, counter_wf_incr, Hd. }
  apply H. split; constructor.
Qed.

Lemma counter_wf_in (d : list (A * nat)) (k : A) (v : nat) :
  counter_wf d -> In (k, v) d <-> counter_get eq_dec k d = v /\ (0 < v)%nat.
Proof.
  intros [Hnd Hpos]. induction d as [|[k' w] d' IH]; simpl.
  { split; [intros []|intros [<- H]; lia]. }
  simpl in Hnd. inversion Hnd as [|? ? Hnin Hnd']; subst.
  inversion Hpos as [|? ? Hw Hpos']; subst. simpl in Hw.
  destruct (eq_dec k k') as [->|Hkk].
  - split.
    + intros [Heq|Hin]; [inversion Heq; subst; auto|].
      exfalso. apply Hnin. apply (in_map fst) in Hin. exact Hin.
    + intros [<- _]. left; reflexivity.
  - rewrite <- (IH Hnd' Hpos'). split; [intros [Heq|Hin]; [inversion Heq; congruence|exact Hin]|auto].
Qed.

Lemma counter_in_iff (xs : list A) (k : A) (v : nat) :
  In (k, v) (counter eq_dec xs) <-> v = count_occ eq_dec xs k /\ (0 < v)%nat.
Proof.
  rewrite (counter_wf_in _ _ _ (counter_wf_counter xs)), counter_get_counter.
  split; intros [H1 H2]; split; auto.
Qed.
End CounterFacts.

(** ** The abundance filter *)

Lemma qltb_spec (a b : Q) : qltb a b = true <-> (a < b)%Q.
Proof.
  unfold qltb. rewrite negb_true_iff. split.
  - intros H. apply Qnot_le_lt. intros Hle. apply Qle_bool_iff in Hle. congruence.
  - intros H. destruct (Qle_bool b a) eqn:E; [|reflexivity].
    apply Qle_bool_iff in E. exfalso. apply (Qlt_not_le a b); assumption.
Qed.


Lemma in_keys_filter {A} (f : A * nat -> bool) (d : list (A * nat)) (k : A) :
  In k (map fst (filter f d)) <-> exists v, In (k, v) d /\ f (k, v) = true.
Proof.
  rewrite in_map_iff. split.
  - intros [[k' v] [Hk Hin]]. simpl in Hk. subst k'.
    apply filter_In in Hin. exists v. exact Hin.
  - intros [v Hv]. exists (k, v). split; [reflexivity|]. apply filter_In, Hv.
Qed.

Lemma nodup_keys_filter {A} (f : A * nat -> bool) (d : list (A * nat)) :
  NoDup (map fst d) -> NoDup (map fst (filter f d)).
Proof.
  induction d as [|[k v] d IH]; simpl; intros Hnd; [constructor|].
  inversion Hnd as [|? ? Hnin Hnd']; subst.
  destruct (f (k, v)); simpl; [|auto].
  constructor; [|auto]. intros Hin. apply Hnin.
  apply in_keys_filter in Hin. destruct Hin as [w [Hw _]].
  apply (in_map fst) in Hw. exact Hw.
Qed.

Lemma retained_iff (d : list (string * nat)) (f : string * nat -> bool) (k : string) :
  counter_wf string d ->
  In k (map fst (filter f d))
  <-> (0 < counter_get string_dec k d)%nat /\ f (k, counter_get string_dec k d) = true.
Proof.
  intros Hwf. rewrite in_keys_filter. split.
  - intros [v [Hin Hf]]. apply (counter_wf_in _ string_dec _ _ _ Hwf) in Hin.
    destruct Hin as [<- Hv]. auto.
  - intros [Hpos Hf]. exists (counter_get string_dec k d). split; [|exact Hf].
    apply (counter_wf_in _ string_dec _ _ _ Hwf). auto.
Qed.

Lemma filter_length_mono {A} (f g : A -> bool) (l : list A) :
  (forall x, f x = true -> g x = true) ->
  (List.length (filter f l) <= List.length (filter g l))%nat.
Proof.
  intros Hfg. induction l as [|x l IH]; simpl; [lia|].
  destruct (f x) eqn:Ef.
  - rewrite (Hfg x Ef). simpl. lia.
  - destruct (g x); simpl; lia.
Qed.


(** C6 (counterexample): the program rounds [sum(counts.values()) *
    min_count] to a double, so neither the exact product with the user's
    decimal nor the exact product with the double it denotes decides
    retention.  With 97 reads [AAA] and 3 reads [CCC] at [min_count =
    0.03], [3 > 100 * 0.03] holds for the double 0.03, yet the float
    product is [3.0] and only [AAA] is kept.  With 29 reads [AAA] and 21
    reads [CCC] at [min_count = 0.58], [29 > 50 * 0.58] fails for the
    decimal, yet the float product is [28.999999999999996] and [AAA] is
    kept. *)
Lemma num_haplotype_float_rounding :
  let t1 := counter string_dec (repeat "AAA"%string 97 ++ repeat "CCC"%string 3) in
  let t2 := counter string_dec (repeat "AAA"%string 29 ++ repeat "CCC"%string 21) in
  (Q_of_nat (sum_values t1) * dbl (3 # 100) < Q_of_nat 3)%Q
  /\ threshold_float (sum_values t1) (dbl (3 # 100)) = Ok (Fin 3)
  /\ num_haplotype_of_counts_float t1 (dbl (3 # 100)) = Ok 1%nat
  /\ ~ (Q_of_nat (sum_values t2) * (58 # 100) < Q_of_nat 29)%Q
  /\ threshold_float (sum_values t2) (dbl (58 # 100))
     = Ok (Fin (8162774324609023 # 281474976710656))
  /\ num_haplotype_of_counts_float t2 (dbl (58 # 100)) = Ok 1%nat.
Proof.
  cbv zeta. split; [vm_compute; reflexivity|]. split; [vm_compute; reflexivity|].
  split; [vm_compute; reflexivity|]. split; [intros H; vm_compute in H; discriminate|].
  split; vm_compute; reflexivity.
Qed.

(** C6 (amended): below 1, a combination is retained iff its count
    exceeds the float [temp_count]: the total converted to a double, times
    [min_count], rounded to the nearest double; from 1 on, iff its count
    exceeds [min_count].  [{"AAG": 15, "AAT": 3}] retains 1 combination
    at [min_count = 10] and 2 at [min_count = 0.1]. *)
Theorem num_haplotype_threshold_float (combos : list string) (min_count : Q) (k : string)
  (kept : list (string * nat)) :
  let counts := counter string_dec combos in
  let count := counter_get string_dec k counts in
  filtered_counts_float counts min_count = Ok kept ->
  ((min_count < 1)%Q ->
     exists s, float_of_nat (sum_values counts) = Ok s
       /\ (In k (map fst kept)
            <-> (0 < count)%nat /\ nat_gt_fval count (fround (s * min_count)) = true))
  /\ ((1 <= min_count)%Q ->
     (In k (map fst kept) <-> (0 < count)%nat /\ (min_count < Q_of_nat count)%Q))
  /\ NoDup (map fst kept)
  /\ count = count_occ string_dec combos k
  /\ num_haplotype_of_counts_float
       (counter string_dec (repeat "AAG"%string 15 ++ repeat "AAT"%string 3)) 10 = Ok 1%nat
  /\ num_haplotype_of_counts_float
       (counter string_dec (repeat "AAG"%string 15 ++ repeat "AAT"%string 3)) (dbl (1 # 10))
     = Ok 2%nat.
Proof.
  cbv zeta. intros H.
  pose proof (counter_wf_counter _ string_dec combos) as Hwf.
  unfold filtered_counts_float, threshold_float in H.
  refine (conj _ (conj _ (conj _ (conj _ (conj _ _))))).
  - intros Hlt. apply qltb_spec in Hlt. rewrite Hlt in H.
    destruct (float_of_nat _) as [s|e]; simpl in H; [|discriminate].
    injection H as <-. exists s. split; [reflexivity|].
    rewrite (retained_iff _ _ _ Hwf). reflexivity.
  - intros Hle.
    assert (E : qltb min_count 1 = false).
    { destruct (qltb min_count 1) eqn:E; [|reflexivity]. apply qltb_spec in E.
      exfalso. apply (Qlt_not_le min_count 1); assumption. }
    rewrite E in H. injection H as <-.
    rewrite (retained_iff _ _ _ Hwf). simpl. rewrite qltb_spec. reflexivity.
  - destruct (qltb min_count 1).
    + destruct (float_of_nat _) as [s|e]; simpl in H; [|discriminate].
      injection H as <-. apply nodup_keys_filter, Hwf.
    + injection H as <-. apply nodup_keys_filter, Hwf.
  - apply counter_get_counter.
  - vm_compute. reflexivity.
  - vm_compute. reflexivity.
Qed.

Lemma num_haplotype_threshold_float_witness :
  In "AAT"%string (map fst [("AAG"%string, 15%nat); ("AAT"%string, 3%nat)]).
Proof.
  destruct (num_haplotype_threshold_float (repeat "AAG"%string 15 ++ repeat "AAT"%string 3)
              (dbl (1 # 10)) "AAT" [("AAG"%string, 15%nat); ("AAT"%string, 3%nat)]
              ltac:(vm_compute; reflexivity)) as [Hlt _].
  destruct (Hlt ltac:(vm_compute; reflexivity)) as [s [Hs Hiff]].
  vm_compute in Hs. injection Hs as <-.
  apply Hiff. split; vm_compute; [lia|reflexivity].
Defined.




(** ** Sorting *)

Lemma insert_sorted_perm (x : nat) (l : list nat) :
  Permutation (insert_sorted x l) (x :: l).
Proof.
  induction l as [|y l IH]; simpl; [reflexivity|].
  destruct (Nat.leb x y); [reflexivity|].
  rewrite IH. apply perm_swap.
Qed.

Lemma sort_nat_perm (l : list nat) : Permutation (sort_nat l) l.
Proof.
  induction l as [|x l IH]; simpl; [reflexivity|].
  rewrite insert_sorted_perm, IH. reflexivity.
Qed.

Lemma insert_sorted_hd (x y : nat) (l : list nat) :
  (y <= x)%nat -> HdRel le y l -> HdRel le y (insert_sorted x l).
Proof.
  intros Hyx Hhd. destruct l as [|z l]; simpl; [constructor; exact Hyx|].
  destruct (Nat.leb x z); constructor; [exact Hyx|]. inversion Hhd; assumption.
Qed.

Lemma insert_sorted_sorted (x : nat) (l : list nat) :
  Sorted le l -> Sorted le (insert_sorted x l).
Proof.
  induction l as [|y l IH]; simpl; intros Hs; [repeat constructor|].
  destruct (Nat.leb x y) eqn:E.
  - apply Nat.leb_le in E. constructor; [exact Hs | constructor; exact E].
  - apply Nat.leb_gt in E. inversion Hs as [|? ? Hs' Hhd]; subst.
    constructor; [apply IH, Hs'|]. apply insert_sorted_hd; [lia|exact Hhd].
Qed.

Lemma sort_nat_sorted (l : list nat) : Sorted le (sort_nat l).
Proof.
  induction l as [|x l IH]; simpl; [constructor|]. apply insert_sorted_sorted, IH.
Qed.

(** Two ascending arrangements of the same multiset of naturals coincide. *)
Lemma sorted_perm_unique (s1 s2 : list nat) :
  Sorted le s1 -> Sorted le s2 -> Permutation s1 s2 -> s1 = s2.
Proof.
  intros H1 H2 Hp.
  apply (Sorted_StronglySorted Nat.le_trans) in H1.
  apply (Sorted_StronglySorted Nat.le_trans) in H2.
  revert s2 H2 Hp. induction H1 as [|a s1 Hs1 IH Ha]; intros s2 H2 Hp.
  - symmetry. apply Permutation_nil, Hp.
  - destruct s2 as [|b s2]; [apply Permutation_sym, Permutation_nil in Hp; discriminate|].
    inversion H2 as [|? ? Hs2 Hb]; subst.
    assert (Hab : a = b).
    { assert (Ina : In a (b :: s2)) by (eapply Permutation_in; [exact Hp | left; reflexivity]).
      assert (Inb : In b (a :: s1))
        by (eapply Permutation_in; [apply Permutation_sym, Hp | left; reflexivity]).
      destruct Ina as [->|Ina]; [reflexivity|].
      destruct Inb as [->|Inb]; [reflexivity|].
      rewrite Forall_forall in Ha, Hb.
      specialize (Ha b Inb). specialize (Hb a Ina). lia. }
    subst b. f_equal. apply IH; [exact Hs2|]. eapply Permutation_cons_inv, Hp.
Qed.

Lemma percentile_index_lt (n : nat) : (0 < n)%nat -> (percentile_index n < n)%nat.
Proof. unfold percentile_index. intros H. apply Nat.Div0.div_lt_upper_bound. lia. Qed.

Lemma filter_all_zero (nums : list nat) :
  Forall (fun n => n = 0%nat) nums -> filter (fun n => Nat.ltb 0 n) nums = [].
Proof. induction 1 as [|x l Hx _ IH]; simpl; [reflexivity|]. subst x. exact IH. Qed.

Lemma count_occ_filter_pos (nums : list nat) (k : nat) :
  count_occ Nat.eq_dec (filter (fun n => Nat.ltb 0 n) nums) k
  = if Nat.ltb 0 k then count_occ Nat.eq_dec nums k else 0%nat.
Proof.
  induction nums as [|x nums IH]; simpl; [destruct (Nat.ltb 0 k); reflexivity|].
  destruct (Nat.ltb 0 x) eqn:Ex; simpl; destruct (Nat.eq_dec x k) as [->|Hxk];
    rewrite IH; try rewrite Ex; try reflexivity;
    destruct (Nat.ltb 0 k); reflexivity.
Qed.

(** ** Aggregation in main *)

(** C1: when the positive per-triplet counts, sorted ascending, form the
    non-empty list [s], the MOI is [s] at index [floor (|s| * 0.9)]; for
    [[1;1;2;2;2;3;4;5;8;9]] that is 9. *)
Theorem aggregate_percentile (nums s : list nat) :
  Sorted le s ->
  Permutation s (filter (fun n => Nat.ltb 0 n) nums) ->
  s <> [] ->
  exists hist,
    aggregate nums = Ok (mkMoiResult (nth (percentile_index (List.length s)) s 0%nat) hist)
    /\ forall bam vcf min_count maxdist,
         triplet_counts bam vcf min_count maxdist = Ok nums ->
         main bam vcf min_count maxdist
         = Ok (mkMoiResult (nth (percentile_index (List.length s)) s 0%nat) hist).
Proof.
  intros Hs Hp Hne.
  assert (Hsort : sort_nat (filter (fun n => Nat.ltb 0 n) nums) = s).
  { apply sorted_perm_unique; [apply sort_nat_sorted | exact Hs |].
    rewrite sort_nat_perm. symmetry. exact Hp. }
  assert (Hagg : aggregate nums
                 = Ok (mkMoiResult (nth (percentile_index (List.length s)) s 0%nat)
                         (counter Nat.eq_dec s))).
  { unfold aggregate. rewrite Hsort. unfold py_index.
    rewrite (nth_error_nth' s 0%nat); [reflexivity|].
    apply percentile_index_lt. destruct s; [congruence | simpl; lia]. }
  exists (counter Nat.eq_dec s). split; [exact Hagg|].
  intros bam vcf min_count maxdist Ht. unfold main. rewrite Ht. exact Hagg.
Qed.

Lemma aggregate_percentile_witness :
  exists hist, aggregate [1;1;2;2;2;3;4;5;8;9]%nat = Ok (mkMoiResult 9 hist).
Proof.
  destruct (aggregate_percentile [1;1;2;2;2;3;4;5;8;9]%nat [1;1;2;2;2;3;4;5;8;9]%nat)
    as [hist [H _]].
  - repeat constructor.
  - simpl. apply Permutation_refl.
  - discriminate.
  - exists hist. exact H.
Defined.

(** C2 (counterexample): with no triplet at all, and with one triplet but
    no reads, [main] fails with the [IndexError] of
    [haplotype_counts[int(len(haplotype_counts)*0.9)]] on an empty list. *)
Lemma main_empty_index_error :
  main [] [] 10 500 = Error IndexError
  /\ triplet_counts [] example_vcf 10 500 = Ok [0%nat]
  /\ main [] example_vcf 10 500 = Error IndexError.
Proof. vm_compute. auto. Qed.

(** C2 (amended): when every triplet keeps 0 haplotypes (in particular
    when there is no triplet), [main] fails with [IndexError] and returns
    no MOI. *)
Theorem main_no_positive_counts (bam : list read) (vcf : list variant)
  (min_count : Q) (maxdist : Z) (nums : list nat) :
  triplet_counts bam vcf min_count maxdist = Ok nums ->
  Forall (fun n => n = 0%nat) nums ->
  main bam vcf min_count maxdist = Error IndexError.
Proof.
  intros Ht Hz. unfold main. rewrite Ht. simpl. unfold aggregate.
  rewrite (filter_all_zero _ Hz). reflexivity.
Qed.

Lemma main_no_positive_counts_witness :
  main [] example_vcf 10 500 = Error IndexError.
Proof.
  apply (main_no_positive_counts [] example_vcf 10 500 [0%nat]).
  - vm_compute. reflexivity.
  - repeat constructor.
Defined.

(** C5 (counterexample): of the triplet counts [[0; 2]], the histogram
    records only the count 2; the triplet with 0 haplotypes is absent. *)
Lemma histogram_drops_zero :
  aggregate [0; 2]%nat = Ok (mkMoiResult 2 [(2, 1)]%nat)
  /\ count_occ Nat.eq_dec [0; 2]%nat 0%nat = 1%nat
  /\ counter_get Nat.eq_dec 0%nat [(2, 1)]%nat = 0%nat.
Proof. vm_compute. auto. Qed.

(** C5 (amended): the histogram maps each positive count [k] to the
    number of triplets with that count and has no entry for 0. *)
Theorem aggregate_histogram (nums : list nat) (r : MoiResult) :
  aggregate nums = Ok r ->
  forall k v, In (k, v) (haplotype_counts r)
              <-> (0 < k)%nat /\ v = count_occ Nat.eq_dec nums k /\ (0 < v)%nat.
Proof.
  unfold aggregate. intros Hagg k v.
  destruct (py_index _ _) as [m|e]; simpl in Hagg; [|discriminate].
  inversion Hagg; subst r; simpl. clear Hagg.
  rewrite counter_in_iff.
  assert (Hc : count_occ Nat.eq_dec (sort_nat (filter (fun n => Nat.ltb 0 n) nums)) k
               = count_occ Nat.eq_dec (filter (fun n => Nat.ltb 0 n) nums) k).
  { apply Permutation_count_occ, sort_nat_perm. }
  rewrite Hc, count_occ_filter_pos.
  destruct (Nat.ltb 0 k) eqn:Ek.
  - apply Nat.ltb_lt in Ek. intuition.
  - apply Nat.ltb_ge in Ek. split; [intros [-> Hv]; lia | intros [Hk _]; lia].
Qed.

Lemma aggregate_histogram_witness :
  In (2, 1)%nat (haplotype_counts (mkMoiResult 2 [(2, 1)]%nat)).
Proof.
  apply (aggregate_histogram [0; 2]%nat (mkMoiResult 2 [(2, 1)]%nat)).
  - vm_compute. reflexivity.
  - vm_compute. auto.
Defined.

(** ** Triplet selection *)

Lemma range_contains_iff (gr : GenomeRange) (q : GenomePosition) :
  range_contains gr q = true
  <-> chrom q = r_chrom gr /\ r_start gr <= pos q <= r_end gr.
Proof.
  unfold range_contains. destruct (string_dec (chrom q) (r_chrom gr)) as [Hc|Hc].
  - rewrite andb_true_iff, !Z.leb_le. tauto.
  - split; [discriminate | intros [Hc' _]; contradiction].
Qed.

(** C4 (counterexample): with SNPs at 100, 150 and 600 and [maxdist = 500]
    the anchor at 100 collects the SNP at exactly 100 + 500. *)
Lemma triplet_window_right_closed :
  get_triplets [mkVariant "chr1" 100; mkVariant "chr1" 150; mkVariant "chr1" 600] 500
  = [[mkPos "chr1" 100; mkPos "chr1" 150; mkPos "chr1" 600]].
Proof. vm_compute. reflexivity. Qed.

(** C4 (amended): the window of anchor [p] is closed on both sides: an
    input SNP is collected iff it lies on [p]'s chromosome in
    [[pos p, pos p + maxdist]]. *)
Theorem window_positions_closed (snps : list GenomePosition) (p q : GenomePosition)
  (maxdist : Z) :
  In q (window_positions snps p maxdist)
  <-> In q snps /\ chrom q = chrom p /\ pos p <= pos q <= pos p + maxdist.
Proof.
  unfold window_positions. rewrite filter_In, range_contains_iff. simpl. tauto.
Qed.

Lemma get_triplets_fold_in (snps l : list GenomePosition) (maxdist : Z)
  (acc : list (list GenomePosition)) (t : list GenomePosition) :
  In t (fold_left
          (fun triplets p =>
             let positions := firstn 3 (window_positions snps p maxdist) in
             if Nat.eqb (List.length positions) 3 then triplets ++ [positions] else triplets)
          l acc) ->
  In t acc \/ exists p, In p l /\ t = firstn 3 (window_positions snps p maxdist)
                        /\ List.length t = 3%nat.
Proof.
  revert acc. induction l as [|p l IH]; intros acc Hin; simpl in Hin; [left; exact Hin|].
  destruct (IH _ Hin) as [Hacc|[p' [Hp' Ht]]].
  - destruct (Nat.eqb _ 3) eqn:E; [|left; exact Hacc].
    apply in_app_or in Hacc. destruct Hacc as [Hacc|[<-|[]]]; [left; exact Hacc|].
    right. exists p. split; [left; reflexivity|]. split; [reflexivity|].
    apply Nat.eqb_eq, E.
  - right. exists p'. split; [right; exact Hp'|exact Ht].
Qed.

Lemma get_triplets_in (vcf : list variant) (maxdist : Z) (t : list GenomePosition) :
  In t (get_triplets vcf maxdist) ->
  exists p, In p (snp_positions_of vcf)
            /\ t = firstn 3 (window_positions (snp_positions_of vcf) p maxdist)
            /\ List.length t = 3%nat.
Proof.
  unfold get_triplets. intros Hin.
  destruct (get_triplets_fold_in _ _ _ _ _ Hin) as [[]|H]. exact H.
Qed.

Lemma strongly_sorted_filter_sub {A} (R : A -> A -> Prop) (f g : A -> bool) (l : list A) :
  (forall x, f x = true -> g x = true) ->
  StronglySorted R (filter g l) -> StronglySorted R (filter f l).
Proof.
  intros Hfg. induction l as [|x l IH]; simpl; intros Hs; [constructor|].
  destruct (g x) eqn:Eg.
  - inversion Hs as [|? ? Hs' Hx]; subst.
    destruct (f x) eqn:Ef; [|apply IH, Hs'].
    constructor; [apply IH, Hs'|].
    rewrite Forall_forall in *. intros y Hy. apply Hx.
    apply filter_In in Hy. apply filter_In. split; [apply Hy | apply Hfg, Hy].
  - destruct (f x) eqn:Ef; [rewrite (Hfg x Ef) in Eg; discriminate|]. apply IH, Hs.
Qed.

Lemma in_firstn {A} (n : nat) (l : list A) (y : A) : In y (firstn n l) -> In y l.
Proof. intros H. rewrite <- (firstn_skipn n l). apply in_or_app. left. exact H. Qed.

Lemma strongly_sorted_firstn {A} (R : A -> A -> Prop) (n : nat) (l : list A) :
  StronglySorted R l -> StronglySorted R (firstn n l).
Proof.
  revert l. induction n as [|n IH]; intros l Hs; [constructor|].
  destruct l as [|x l]; simpl; [constructor|].
  inversion Hs as [|? ? Hs' Hx]; subst. constructor; [apply IH, Hs'|].
  rewrite Forall_forall in *. intros y Hy. apply Hx. eapply in_firstn, Hy.
Qed.

Lemma nodup_firstn {A} (n : nat) (l : list A) : NoDup l -> NoDup (firstn n l).
Proof.
  intros H. rewrite <- (firstn_skipn n l) in H. eapply NoDup_app_remove_r, H.
Qed.

Lemma sorted_within_of_sorted (snps : list GenomePosition) :
  StronglySorted (fun a b => pos a <= pos b) snps -> sorted_within_chrom snps.
Proof.
  intros Hs c. apply (strongly_sorted_filter_sub _ _ (fun _ => true)); [reflexivity|].
  rewrite filter_true. exact Hs.
Qed.

Lemma window_sorted (snps : list GenomePosition) (p : GenomePosition) (maxdist : Z) :
  sorted_within_chrom snps ->
  StronglySorted (fun a b => pos a <= pos b) (window_positions snps p maxdist).
Proof.
  intros Hs. unfold window_positions.
  apply (strongly_sorted_filter_sub _ _ (fun q => String.eqb (chrom q) (chrom p)));
    [|apply Hs].
  intros q Hq. apply range_contains_iff in Hq. simpl in Hq.
  apply String.eqb_eq, Hq.
Qed.

(** C8 (counterexample): the input [chr1:100, chr1:100, chr1:150] is
    sorted (non-decreasing) and yields the triplet [100, 100, 150], whose
    positions are not distinct. *)
Lemma triplet_with_repeated_position :
  let vcf := [mkVariant "chr1" 100; mkVariant "chr1" 100; mkVariant "chr1" 150] in
  sorted_within_chrom (snp_positions_of vcf)
  /\ In [mkPos "chr1" 100; mkPos "chr1" 100; mkPos "chr1" 150] (get_triplets vcf 500)
  /\ ~ NoDup [mkPos "chr1" 100; mkPos "chr1" 100; mkPos "chr1" 150].
Proof.
  cbv zeta. split; [|split].
  - apply sorted_within_of_sorted. repeat constructor; simpl; lia.
  - vm_compute. left. reflexivity.
  - intros Hnd. inversion Hnd as [|? ? Hnin _]. apply Hnin. left. reflexivity.
Qed.

(** C8 (amended): for SNPs sorted by coordinate within each chromosome,
    every triplet has exactly 3 positions on one chromosome, in
    non-decreasing order, spanning at most [maxdist]; when no SNP is
    repeated they are strictly ascending, hence distinct. *)
Theorem get_triplets_shape (vcf : list variant) (maxdist : Z) (t : list GenomePosition) :
  sorted_within_chrom (snp_positions_of vcf) ->
  In t (get_triplets vcf maxdist) ->
  exists a b c,
    t = [a; b; c] /\ chrom a = chrom b /\ chrom b = chrom c
    /\ pos a <= pos b <= pos c /\ pos c - pos a <= maxdist
    /\ (NoDup (snp_positions_of vcf) -> pos a < pos b < pos c).
Proof.
  intros Hs Hin. destruct (get_triplets_in _ _ _ Hin) as [p [Hp [Ht Hlen]]].
  assert (Hss : StronglySorted (fun a b => pos a <= pos b) t).
  { rewrite Ht. apply strongly_sorted_firstn, window_sorted, Hs. }
  assert (Hwin : forall q, In q t -> chrom q = chrom p /\ pos p <= pos q <= pos p + maxdist).
  { intros q Hq. rewrite Ht in Hq. apply in_firstn in Hq.
    apply window_positions_closed in Hq. tauto. }
  destruct t as [|a [|b [|c [|d t']]]]; simpl in Hlen; try discriminate.
  exists a, b, c.
  inversion Hss as [|? ? Hss' Ha]; subst.
  inversion Hss' as [|? ? _ Hb]; subst.
  inversion Ha as [|? ? Hab Ha']; inversion Ha' as [|? ? Hac _]; inversion Hb as [|? ? Hbc _].
  destruct (Hwin a) as [Hca [Ha1 Ha2]]; [left; reflexivity|].
  destruct (Hwin b) as [Hcb _]; [right; left; reflexivity|].
  destruct (Hwin c) as [Hcc [Hc1 Hc2]]; [right; right; left; reflexivity|].
  split; [reflexivity|]. split; [congruence|]. split; [congruence|].
  split; [lia|]. split; [lia|].
  intros Hnd.
  assert (Hnd3 : NoDup [a; b; c]).
  { rewrite Ht. apply nodup_firstn. unfold window_positions. apply NoDup_filter, Hnd. }
  inversion Hnd3 as [|? ? Hna Hnd3']; inversion Hnd3' as [|? ? Hnb _]; subst.
  assert (pos a <> pos b).
  { intros E. apply Hna. left. destruct a, b; simpl in *; congruence. }
  assert (pos b <> pos c).
  { intros E. apply Hnb. left. destruct b, c; simpl in *; congruence. }
  lia.
Qed.

Lemma get_triplets_shape_witness :
  exists a b c, [mkPos "chr1" 100; mkPos "chr1" 150; mkPos "chr1" 200] = [a; b; c]
                /\ pos c - pos a <= 500.
Proof.
  destruct (get_triplets_shape example_vcf 500
              [mkPos "chr1" 100; mkPos "chr1" 150; mkPos "chr1" 200])
    as [a [b [c [Ht [_ [_ [_ [Hspan _]]]]]]]].
  - apply sorted_within_of_sorted. repeat constructor; simpl; lia.
  - vm_compute. left. reflexivity.
  - exists a, b, c. split; assumption.
Defined.

(** ** Allele calling *)

Lemma dict_get_set (p p' : GenomePosition) (v : ascii) (d : list (GenomePosition * ascii)) :
  dict_get p (dict_set p' v d)
  = if GenomePosition_eq_dec p p' then Some v else dict_get p d.
Proof.
  induction d as [|[k w] d IH]; simpl; [reflexivity|].
  destruct (GenomePosition_eq_dec p' k) as [->|Hk]; simpl.
  - destruct (GenomePosition_eq_dec p k); reflexivity.
  - destruct (GenomePosition_eq_dec p k) as [->|Hpk].
    + destruct (GenomePosition_eq_dec k p'); [congruence|reflexivity].
    + rewrite IH. reflexivity.
Qed.

Section AlleleCalls.
Variable r : read.
Variable positions : list GenomePosition.
Hypothesis Hcontract : pysam_match_contract r.

Definition calls_sound (acc : list (GenomePosition * ascii)) : Prop :=
  forall p c, dict_get p acc = Some c -> qualifying_call r p c.

Lemma get_alleles_step_sound (pr : option nat * option nat * option ascii)
  (acc acc' : list (GenomePosition * ascii)) :
  In pr (aligned_pairs r) -> calls_sound acc ->
  get_alleles_step r positions acc pr = Ok acc' -> calls_sound acc'.
Proof.
  destruct pr as [[[i|] [rp|]] [nt|]]; simpl; intros Hin Hacc Hstep;
    try (inversion Hstep; subst; exact Hacc).
  destruct (negb (py_in _ positions)); [inversion Hstep; subst; exact Hacc|].
  unfold quality_at in Hstep.
  destruct (query_qualities r) as [qs|] eqn:Eqs; [|discriminate].
  unfold py_index at 1 in Hstep.
  destruct (nth_error qs i) as [q|] eqn:Eq; simpl in Hstep; [|discriminate].
  destruct (q <? 12) eqn:Eq12; [inversion Hstep; subst; exact Hacc|].
  apply Z.ltb_ge in Eq12.
  assert (Hcall : exists b, nth_error (query_sequence r) i = Some b
                            /\ acc' = dict_set (mkPos (reference_name r) (Z.of_nat rp + 1))
                                               (ascii_upper b) acc).
  { destruct (ascii_islower nt) eqn:El.
    - unfold py_index in Hstep.
      destruct (nth_error (query_sequence r) i) as [b|]; simpl in Hstep; [|discriminate].
      inversion Hstep. exists b. split; reflexivity.
    - simpl in Hstep. inversion Hstep.
      destruct (Hcontract i rp nt Hin El) as [b [Hb ->]]. exists b. split; [exact Hb|reflexivity]. }
  destruct Hcall as [b [Hb ->]].
  intros p c Hget. rewrite dict_get_set in Hget.
  destruct (GenomePosition_eq_dec p _) as [->|Hne].
  - inversion Hget; subst c. exists i, rp, nt, qs, q, b. repeat split; assumption.
  - apply Hacc, Hget.
Qed.

Lemma get_alleles_loop_sound (pairs : list (option nat * option nat * option ascii))
  (acc acc' : list (GenomePosition * ascii)) :
  incl pairs (aligned_pairs r) -> calls_sound acc ->
  get_alleles_loop r positions acc pairs = Ok acc' -> calls_sound acc'.
Proof.
  revert acc. induction pairs as [|pr prs IH]; intros acc Hincl Hacc Hloop; simpl in Hloop.
  - inversion Hloop; subst; exact Hacc.
  - destruct (get_alleles_step r positions acc pr) as [acc1|e] eqn:Es; simpl in Hloop;
      [|discriminate].
    apply (IH acc1); [intros x Hx; apply Hincl; right; exact Hx | | exact Hloop].
    eapply get_alleles_step_sound; [apply Hincl; left; reflexivity | exact Hacc | exact Es].
Qed.
End AlleleCalls.

Lemma example_read_contract (base ref_nt : ascii) (quals : option (list Z)) :
  (ascii_islower ref_nt = false -> ref_nt = ascii_upper base) ->
  pysam_match_contract (example_read base ref_nt quals).
Proof.
  intros Hup i rp nt Hin Hl. unfold example_read in Hin. cbn [aligned_pairs] in Hin.
  apply in_map_iff in Hin.
  destruct Hin as [x [Heq Hx]]. inversion Heq; subst.
  apply in_seq in Hx. exists base. split; [apply nth_error_repeat; lia | apply Hup, Hl].
Qed.

(** C7: a call returned by [get_alleles] at a target position comes from
    an aligned (non-indel) pair at that position with base quality at
    least 12 and is the read's own base there, uppercased; without such a
    pair the position gets no call. *)
Theorem get_alleles_calls (r : read) (positions : list GenomePosition)
  (calls : list (option ascii)) :
  pysam_match_contract r ->
  get_alleles r positions = Ok calls ->
  forall j p, nth_error positions j = Some p ->
    (forall c, nth_error calls j = Some (Some c) -> qualifying_call r p c)
    /\ ((forall c, ~ qualifying_call r p c) -> nth_error calls j = Some None).
Proof.
  intros Hc Hget j p Hj. unfold get_alleles in Hget.
  destruct (get_alleles_loop r positions [] (aligned_pairs r)) as [acc|e] eqn:Hloop;
    simpl in Hget; [|discriminate].
  inversion Hget; subst calls. clear Hget.
  assert (Hsound : calls_sound r acc).
  { apply (get_alleles_loop_sound r positions Hc (aligned_pairs r) [] acc);
      [intros x Hx; exact Hx | intros p' c' H; discriminate | exact Hloop]. }
  rewrite nth_error_map, Hj. simpl. split.
  - intros c Hcall. inversion Hcall. apply Hsound. assumption.
  - intros Hno. destruct (dict_get p acc) as [c|] eqn:Eg; [|reflexivity].
    exfalso. apply (Hno c), Hsound, Eg.
Qed.

Lemma get_alleles_calls_witness :
  qualifying_call read_C (mkPos "chr1" 150) "C"%char.
Proof.
  destruct (get_alleles_calls read_C example_markers
              [Some "C"%char; Some "C"%char; Some "C"%char]) with (j := 1%nat) (p := mkPos "chr1" 150)
    as [Hsome _].
  - apply example_read_contract. intros H. discriminate.
  - vm_compute. reflexivity.
  - reflexivity.
  - apply Hsome. reflexivity.
Defined.

(** ** Reads without base qualities *)

Section NoQualities.
Variable r : read.
Variable positions : list GenomePosition.
Hypothesis Hnoq : query_qualities r = None.

Lemma step_no_qualities (acc : list (GenomePosition * ascii))
  (pr : option nat * option nat * option ascii) :
  get_alleles_step r positions acc pr = Ok acc
  \/ get_alleles_step r positions acc pr = Error TypeError.
Proof.
  destruct pr as [[[i|] [rp|]] [nt|]]; simpl; auto.
  destruct (negb (py_in _ positions)); auto.
  unfold quality_at. rewrite Hnoq. auto.
Qed.

Lemma loop_no_qualities_error (pairs : list (option nat * option nat * option ascii))
  (acc : list (GenomePosition * ascii)) :
  (exists i rp nt, In (Some i, Some rp, Some nt) pairs
     /\ py_in (mkPos (reference_name r) (Z.of_nat rp + 1)) positions = true) ->
  get_alleles_loop r positions acc pairs = Error TypeError.
Proof.
  revert acc. induction pairs as [|pr prs IH]; intros acc [i [rp [nt [Hin Hpos]]]];
    [destruct Hin|].
  simpl. destruct Hin as [->|Hin].
  - simpl. rewrite Hpos. simpl. unfold quality_at. rewrite Hnoq. reflexivity.
  - destruct (step_no_qualities acc pr) as [-> | ->]; simpl; [|reflexivity].
    apply IH. exists i, rp, nt. auto.
Qed.

Lemma loop_no_qualities_skip (pairs : list (option nat * option nat * option ascii))
  (acc : list (GenomePosition * ascii)) :
  (forall i ref nt, In (Some i, ref, Some nt) pairs ->
     exists rp, ref = Some rp
       /\ py_in (mkPos (reference_name r) (Z.of_nat rp + 1)) positions = false) ->
  get_alleles_loop r positions acc pairs = Ok acc.
Proof.
  induction pairs as [|[[[i|] ref] [nt|]] prs IH]; intros Hall; simpl; [reflexivity| | | |];
    try (apply IH; intros i' ref' nt' H; apply (Hall i' ref' nt'); right; exact H).
  destruct (Hall i ref nt (or_introl eq_refl)) as [rp [-> Hpos]].
  simpl. rewrite Hpos. simpl.
  apply IH. intros i' ref' nt' H. apply (Hall i' ref' nt'). right. exact H.
Qed.
End NoQualities.

(** C9 (counterexample): a read without base qualities aligned over the
    markers makes the whole run fail with [TypeError]. *)
Lemma no_quality_read_aborts :
  main [example_read "A" "A" None] example_vcf 10 500 = Error TypeError.
Proof. vm_compute. reflexivity. Qed.

(** C9 (amended): a read without base qualities raises [TypeError] in
    [get_alleles] as soon as it has an aligned pair at a marker, and that
    error ends [get_haplotype_counts]' loop over the reads; such a read
    aligned at no marker gives no call and no error. *)
Theorem no_quality_read (r : read) (positions : list GenomePosition) :
  query_qualities r = None ->
  (aligned_at_marker r positions -> get_alleles r positions = Error TypeError)
  /\ ((forall i ref nt, In (Some i, ref, Some nt) (aligned_pairs r) ->
        exists rp, ref = Some rp
          /\ py_in (mkPos (reference_name r) (Z.of_nat rp + 1)) positions = false) ->
      get_alleles r positions = Ok (map (fun _ => None) positions))
  /\ (forall reads, In r reads -> read_passes r = true -> aligned_at_marker r positions ->
      exists e, collect_combinations positions reads = Error e).
Proof.
  intros Hnoq.
  assert (Herr : aligned_at_marker r positions -> get_alleles r positions = Error TypeError).
  { intros Hm. unfold get_alleles. rewrite (loop_no_qualities_error r positions Hnoq); [reflexivity|].
    exact Hm. }
  split; [exact Herr|split].
  - intros Hall. unfold get_alleles.
    rewrite (loop_no_qualities_skip r positions (aligned_pairs r) [] Hall). reflexivity.
  - intros reads Hin Hpass Hm. induction reads as [|r' rs IH]; [destruct Hin|].
    simpl. destruct Hin as [->|Hin].
    + rewrite Hpass, (Herr Hm). exists TypeError. reflexivity.
    + destruct (read_passes r'); [|apply IH, Hin].
      destruct (get_alleles r' positions) as [calls|e]; simpl; [|exists e; reflexivity].
      destruct (IH Hin) as [e He]. rewrite He. exists e. reflexivity.
Qed.

Lemma no_quality_read_witness :
  get_alleles (example_read "A" "A" None) example_markers = Error TypeError.
Proof.
  destruct (no_quality_read (example_read "A" "A" None) example_markers) as [H _].
  - reflexivity.
  - apply H. exists 0%nat, 99%nat, "A"%char. split.
    + simpl. left. reflexivity.
    + vm_compute. reflexivity.
Defined.

(** ** Markers on two chromosomes *)

Lemma py_min_from_cross (m : GenomePosition) (xs : list GenomePosition) :
  (exists y, In y xs /\ chrom y <> chrom m) -> py_min_from m xs = Error ValueError.
Proof.
  revert m. induction xs as [|x xs IH]; intros m [y [Hy Hc]]; [destruct Hy|].
  simpl. unfold pos_lt. destruct (string_dec (chrom x) (chrom m)) as [Hxm|Hxm];
    [|reflexivity].
  simpl. apply IH. destruct Hy as [<-|Hy]; [contradiction|].
  exists y. split; [exact Hy|]. destruct (pos x <? pos m); congruence.
Qed.

(** C10: markers on two different chromosomes make
    [get_haplotype_counts] fail with the [ValueError] of
    [GenomePosition.__lt__], raised by [min(positions)]. *)
Theorem get_haplotype_counts_cross_chrom (bam : list read)
  (positions : list GenomePosition) (a b : GenomePosition) :
  In a positions -> In b positions -> chrom a <> chrom b ->
  get_haplotype_counts bam positions = Error ValueError.
Proof.
  intros Ha Hb Hab. destruct positions as [|x xs]; [destruct Ha|].
  unfold get_haplotype_counts. simpl. unfold py_min.
  rewrite py_min_from_cross; [reflexivity|].
  destruct (string_dec (chrom a) (chrom x)) as [Hax|Hax].
  - exists b. destruct Hb as [<-|Hb]; [congruence|]. split; [exact Hb|congruence].
  - exists a. destruct Ha as [<-|Ha]; [congruence|]. split; [exact Ha|exact Hax].
Qed.

Lemma get_haplotype_counts_cross_chrom_witness :
  get_haplotype_counts [read_A] [mkPos "chr1" 100; mkPos "chr2" 150; mkPos "chr1" 200]
  = Error ValueError.
Proof.
  apply (get_haplotype_counts_cross_chrom _ _ (mkPos "chr1" 100) (mkPos "chr2" 150)).
  - left. reflexivity.
  - right. left. reflexivity.
  - discriminate.
Defined.

(** * Further properties of the code *)

(** ** GenomePosition ordering *)

(** [GenomePosition.__lt__] raises exactly across chromosomes, and on one
    chromosome it is a strict total order on positions. *)
Theorem pos_lt_order (a b c : GenomePosition) :
  (pos_lt a b = Error ValueError <-> chrom a <> chrom b)
  /\ (chrom a = chrom b ->
      (pos_lt a b = Ok true \/ pos_lt b a = Ok true \/ a = b)
      /\ ~ (pos_lt a b = Ok true /\ pos_lt b a = Ok true)
      /\ pos_lt a a = Ok false)
  /\ (pos_lt a b = Ok true -> pos_lt b c = Ok true -> pos_lt a c = Ok true).
Proof.
  unfold pos_lt. split; [|split].
  - destruct (string_dec (chrom a) (chrom b)); split; congruence.
  - intros Hab. rewrite Hab. destruct (string_dec (chrom b) (chrom b)) as [_|]; [|congruence].
    split; [|split].
    + destruct (Z.lt_trichotomy (pos a) (pos b)) as [H|[H|H]].
      * left. f_equal. apply Z.ltb_lt, H.
      * right. right. destruct a, b; simpl in *; congruence.
      * right. left. f_equal. apply Z.ltb_lt, H.
    + intros [H1 H2]. injection H1 as E1. injection H2 as E2.
      apply Z.ltb_lt in E1. apply Z.ltb_lt in E2. lia.
    + f_equal. apply Z.ltb_irrefl.
  - destruct (string_dec (chrom a) (chrom b)); [|discriminate].
    destruct (string_dec (chrom b) (chrom c)); [|discriminate].
    destruct (string_dec (chrom a) (chrom c)); [|congruence].
    intros H1 H2. injection H1 as E1. injection H2 as E2.
    apply Z.ltb_lt in E1. apply Z.ltb_lt in E2. f_equal. apply Z.ltb_lt. lia.
Qed.

(** ** min and max of the markers *)

Lemma py_min_from_same_chrom (m : GenomePosition) (ys : list GenomePosition) :
  (forall y, In y ys -> chrom y = chrom m) ->
  exists lo, py_min_from m ys = Ok lo /\ In lo (m :: ys)
             /\ forall y, In y (m :: ys) -> pos lo <= pos y.
Proof.
  revert m. induction ys as [|y ys IH]; intros m Hc.
  - exists m. split; [reflexivity|]. split; [left; reflexivity|].
    intros y [<-|[]]. lia.
  - simpl. unfold pos_lt. rewrite (Hc y (or_introl eq_refl)).
    destruct (string_dec (chrom m) (chrom m)) as [_|]; [|congruence]. simpl.
    set (m' := if pos y <? pos m then y else m).
    assert (Hm' : chrom m' = chrom m /\ pos m' <= pos m /\ pos m' <= pos y
                  /\ (m' = y \/ m' = m)).
    { unfold m'. destruct (pos y <? pos m) eqn:E.
      - apply Z.ltb_lt in E. rewrite (Hc y (or_introl eq_refl)). intuition lia.
      - apply Z.ltb_ge in E. intuition lia. }
    destruct Hm' as [Hcm [Hle1 [Hle2 Hor]]].
    destruct (IH m') as [lo [Hlo [Hin Hmin]]].
    { intros z Hz. rewrite Hcm. apply Hc. right. exact Hz. }
    exists lo. split; [exact Hlo|]. split.
    + destruct Hin as [<-|Hin]; [destruct Hor as [->| ->]; simpl; auto|simpl; auto].
    + intros z [<-|[<-|Hz]].
      * specialize (Hmin m' (or_introl eq_refl)). lia.
      * specialize (Hmin m' (or_introl eq_refl)). lia.
      * apply Hmin. right. exact Hz.
Qed.

Lemma py_max_from_same_chrom (m : GenomePosition) (ys : list GenomePosition) :
  (forall y, In y ys -> chrom y = chrom m) ->
  exists hi, py_max_from m ys = Ok hi /\ In hi (m :: ys)
             /\ forall y, In y (m :: ys) -> pos y <= pos hi.
Proof.
  revert m. induction ys as [|y ys IH]; intros m Hc.
  - exists m. split; [reflexivity|]. split; [left; reflexivity|].
    intros y [<-|[]]. lia.
  - simpl. unfold pos_lt. rewrite (Hc y (or_introl eq_refl)).
    destruct (string_dec (chrom m) (chrom m)) as [_|]; [|congruence]. simpl.
    set (m' := if pos m <? pos y then y else m).
    assert (Hm' : chrom m' = chrom m /\ pos m <= pos m' /\ pos y <= pos m'
                  /\ (m' = y \/ m' = m)).
    { unfold m'. destruct (pos m <? pos y) eqn:E.
      - apply Z.ltb_lt in E. rewrite (Hc y (or_introl eq_refl)). intuition lia.
      - apply Z.ltb_ge in E. intuition lia. }
    destruct Hm' as [Hcm [Hle1 [Hle2 Hor]]].
    destruct (IH m') as [hi [Hhi [Hin Hmax]]].
    { intros z Hz. rewrite Hcm. apply Hc. right. exact Hz. }
    exists hi. split; [exact Hhi|]. split.
    + destruct Hin as [<-|Hin]; [destruct Hor as [->| ->]; simpl; auto|simpl; auto].
    + intros z [<-|[<-|Hz]].
      * specialize (Hmax m' (or_introl eq_refl)). lia.
      * specialize (Hmax m' (or_introl eq_refl)). lia.
      * apply Hmax. right. exact Hz.
Qed.

(** [min(positions)] and [max(positions)] succeed on a non-empty list of
    markers of one chromosome and return a marker of least and one of
    greatest coordinate. *)
Theorem py_min_max_same_chrom (xs : list GenomePosition) (x : GenomePosition) :
  In x xs -> (forall y, In y xs -> chrom y = chrom x) ->
  exists lo hi, py_min xs = Ok lo /\ py_max xs = Ok hi /\ In lo xs /\ In hi xs
                /\ forall y, In y xs -> pos lo <= pos y <= pos hi.
Proof.
  intros Hx Hc. destruct xs as [|m ys]; [destruct Hx|].
  assert (Hc' : forall y, In y ys -> chrom y = chrom m).
  { intros y Hy. rewrite (Hc y (or_intror Hy)), (Hc m (or_introl eq_refl)). reflexivity. }
  destruct (py_min_from_same_chrom m ys Hc') as [lo [Hlo [Hinlo Hmin]]].
  destruct (py_max_from_same_chrom m ys Hc') as [hi [Hhi [Hinhi Hmax]]].
  exists lo, hi. simpl. repeat split; auto.
Qed.

Lemma py_min_max_same_chrom_witness :
  exists lo hi,
    py_min [mkPos "chr1" 150; mkPos "chr1" 100; mkPos "chr1" 200] = Ok lo
    /\ py_max [mkPos "chr1" 150; mkPos "chr1" 100; mkPos "chr1" 200] = Ok hi
    /\ pos lo <= 150 <= pos hi.
Proof.
  destruct (py_min_max_same_chrom [mkPos "chr1" 150; mkPos "chr1" 100; mkPos "chr1" 200]
              (mkPos "chr1" 150)) as [lo [hi [Hlo [Hhi [_ [_ Hb]]]]]].
  - left. reflexivity.
  - intros y [<-|[<-|[<-|[]]]]; reflexivity.
  - exists lo, hi. split; [exact Hlo|]. split; [exact Hhi|].
    apply (Hb (mkPos "chr1" 150)). left. reflexivity.
Defined.

(** ** The read filter of get_haplotype_counts *)

Lemma collect_filter_passes (ps : list GenomePosition) (reads : list read) :
  collect_combinations ps (filter read_passes reads) = collect_combinations ps reads.
Proof.
  induction reads as [|r rs IH]; simpl; [reflexivity|].
  destruct (read_passes r) eqn:E; simpl; rewrite ?E, IH; reflexivity.
Qed.

Lemma fetch_filter_passes (bam : list read) (c : string) (s e : Z) :
  fetch (filter read_passes bam) c s e = filter read_passes (fetch bam c s e).
Proof.
  unfold fetch. induction bam as [|r rs IH]; simpl; [reflexivity|].
  destruct (read_passes r) eqn:E1; simpl;
    destruct (String.eqb (reference_name r) c && (reference_start r <? e)
              && (s <? reference_end r))%bool eqn:E2; simpl; rewrite ?E1, ?IH; reflexivity.
Qed.

Lemma get_haplotype_counts_filter (bam : list read) (ps : list GenomePosition) :
  get_haplotype_counts (filter read_passes bam) ps = get_haplotype_counts bam ps.
Proof.
  unfold get_haplotype_counts.
  destruct (py_index ps 0) as [first|e]; simpl; [|reflexivity].
  destruct (py_min ps) as [lo|e]; simpl; [|reflexivity].
  destruct (py_max ps) as [hi|e]; simpl; [|reflexivity].
  rewrite fetch_filter_passes, collect_filter_passes. reflexivity.
Qed.

(** Reads with mapping quality below 10, or flagged secondary,
    supplementary or unmapped, have no effect on the haplotype table: two
    alignment inputs with the same passing reads give the same result
    (table or error). *)
Theorem get_haplotype_counts_ignores_filtered (bam bam' : list read)
  (ps : list GenomePosition) :
  filter read_passes bam = filter read_passes bam' ->
  get_haplotype_counts bam ps = get_haplotype_counts bam' ps.
Proof.
  intros H. rewrite <- (get_haplotype_counts_filter bam), H.
  apply get_haplotype_counts_filter.
Qed.

Lemma get_haplotype_counts_ignores_filtered_witness :
  get_haplotype_counts [read_A; mkRead "chr1" 99 200 9 false false false
                                  (repeat "C"%char 101) good_quals
                                  (aligned_pairs read_C)] example_markers
  = get_haplotype_counts [read_A] example_markers.
Proof.
  apply get_haplotype_counts_ignores_filtered. reflexivity.
Defined.

(** ** Shape of the haplotype table *)

Lemma get_alleles_length (r : read) (ps : list GenomePosition) (calls : list (option ascii)) :
  get_alleles r ps = Ok calls -> List.length calls = List.length ps.
Proof.
  unfold get_alleles. destruct (get_alleles_loop r ps [] (aligned_pairs r)); simpl;
    intros H; [|discriminate].
  inversion H. apply length_map.
Qed.

Lemma all_calls_length (calls : list (option ascii)) (cs : list ascii) :
  all_calls calls = Some cs -> List.length cs = List.length calls.
Proof.
  revert cs. induction calls as [|oc calls IH]; intros cs H; simpl in H;
    [inversion H; reflexivity|].
  destruct oc as [c|]; [|discriminate].
  destruct (all_calls calls) as [l|] eqn:E; [|discriminate].
  inversion H; subst. simpl. f_equal. apply IH. reflexivity.
Qed.

Lemma join_length (cs : list ascii) : String.length (join cs) = List.length cs.
Proof. induction cs as [|c cs IH]; simpl; [reflexivity|]. rewrite IH. reflexivity. Qed.

Lemma collect_combinations_shape (ps : list GenomePosition) (reads : list read)
  (combos : list string) :
  collect_combinations ps reads = Ok combos ->
  (forall s, In s combos -> String.length s = List.length ps)
  /\ (List.length combos <= List.length reads)%nat.
Proof.
  revert combos. induction reads as [|r rs IH]; intros combos H; simpl in H.
  - inversion H; subst. split; [intros s []|simpl; lia].
  - destruct (read_passes r).
    + destruct (get_alleles r ps) as [calls|e] eqn:Ea; simpl in H; [|discriminate].
      destruct (collect_combinations ps rs) as [rest|e] eqn:Ec; simpl in H; [|discriminate].
      destruct (IH rest eq_refl) as [Hs Hl].
      destruct (all_calls calls) as [cs|] eqn:Ecs; inversion H; subst; simpl.
      * split; [|lia]. intros s [<-|Hin]; [|apply Hs, Hin].
        rewrite join_length, (all_calls_length _ _ Ecs). apply (get_alleles_length _ _ _ Ea).
      * split; [exact Hs|lia].
    + destruct (IH combos H) as [Hs Hl]. split; [exact Hs|simpl; lia].
Qed.

Lemma filter_length_le {A} (f : A -> bool) (l : list A) :
  (List.length (filter f l) <= List.length l)%nat.
Proof.
  rewrite <- (filter_true l) at 2. apply filter_length_mono. reflexivity.
Qed.

Lemma haplotype_table_shape (bam : list read) (ps : list GenomePosition)
  (table : list (string * nat)) :
  get_haplotype_counts bam ps = Ok table ->
  NoDup (map fst table)
  /\ (forall k v, In (k, v) table -> (0 < v)%nat /\ String.length k = List.length ps)
  /\ (sum_values table <= List.length bam)%nat.
Proof.
  unfold get_haplotype_counts.
  destruct (py_index ps 0) as [first|e]; simpl; [|discriminate].
  destruct (py_min ps) as [lo|e]; simpl; [|discriminate].
  destruct (py_max ps) as [hi|e]; simpl; [|discriminate].
  destruct (collect_combinations ps (fetch bam (chrom first) (pos lo) (pos hi)))
    as [combos|e] eqn:Ec; simpl; intros H; [|discriminate].
  inversion H; subst table. clear H.
  destruct (collect_combinations_shape _ _ _ Ec) as [Hs Hl].
  destruct (counter_wf_counter _ string_dec combos) as [Hnd _].
  split; [exact Hnd|split].
  - intros k v Hin. apply counter_in_iff in Hin. destruct Hin as [Hv Hpos].
    split; [exact Hpos|]. apply Hs. apply (count_occ_In string_dec). lia.
  - rewrite sum_values_counter. eapply Nat.le_trans; [exact Hl|]. apply filter_length_le.
Qed.

(** The table of [get_haplotype_counts] has distinct keys, positive
    counts, one character per marker in every key, and its counts add up
    to at most the number of reads of the alignment input. *)
Theorem get_haplotype_counts_shape (bam : list read) (ps : list GenomePosition)
  (table : list (string * nat)) :
  get_haplotype_counts bam ps = Ok table ->
  NoDup (map fst table)
  /\ (forall k v, In (k, v) table -> (0 < v)%nat /\ String.length k = List.length ps)
  /\ (sum_values table <= List.length bam)%nat.
Proof. apply haplotype_table_shape. Qed.

Lemma get_haplotype_counts_shape_witness :
  (sum_values [("AAA"%string, 5%nat); ("CCC"%string, 2%nat)] <= 7)%nat.
Proof.
  destruct (get_haplotype_counts_shape (repeat read_A 5 ++ repeat read_C 2) example_markers
              [("AAA"%string, 5%nat); ("CCC"%string, 2%nat)]) as [_ [_ H]].
  - vm_compute. reflexivity.
  - exact H.
Defined.

(** ** Reads on another chromosome *)

(** A read aligned to a chromosome that carries none of the markers gets
    no call at any marker, and no error even without base qualities. *)
Theorem get_alleles_other_chrom (r : read) (ps : list GenomePosition) :
  (forall p, In p ps -> chrom p <> reference_name r) ->
  (forall i ref nt, In (Some i, ref, Some nt) (aligned_pairs r) -> ref <> None) ->
  get_alleles r ps = Ok (map (fun _ => None) ps).
Proof.
  intros Hchr Href. unfold get_alleles.
  rewrite (loop_no_qualities_skip r ps (aligned_pairs r) []); [reflexivity|].
  intros i ref nt Hin. destruct ref as [rp|]; [|exfalso; eapply Href; [exact Hin|reflexivity]].
  exists rp. split; [reflexivity|].
  apply not_true_iff_false. unfold py_in. rewrite existsb_exists.
  intros [q [Hq Heq]]. destruct (GenomePosition_eq_dec _ q) as [E|]; [|discriminate].
  apply (Hchr q Hq). rewrite <- E. reflexivity.
Qed.

Lemma get_alleles_other_chrom_witness :
  get_alleles (example_read "A" "A" None) [mkPos "chr2" 100; mkPos "chr2" 150]
  = Ok [None; None].
Proof.
  apply (get_alleles_other_chrom (example_read "A" "A" None)).
  - intros p [<-|[<-|[]]]; discriminate.
  - intros i ref nt Hin. unfold example_read in Hin. cbn [aligned_pairs] in Hin.
    apply in_map_iff in Hin. destruct Hin as [x [Heq _]]. inversion Heq. discriminate.
Defined.

(** ** Bounds of the abundance filter *)













(** ** Counting triplets *)

Lemma get_triplets_fold_eq (g : GenomePosition -> list GenomePosition)
  (l : list GenomePosition) (acc : list (list GenomePosition)) :
  fold_left (fun triplets p =>
               let positions := g p in
               if Nat.eqb (List.length positions) 3 then triplets ++ [positions] else triplets)
            l acc
  = acc ++ map g (filter (fun p => Nat.eqb (List.length (g p)) 3) l).
Proof.
  revert acc. induction l as [|p l IH]; intros acc; simpl; [rewrite app_nil_r; reflexivity|].
  rewrite IH. destruct (Nat.eqb (List.length (g p)) 3); simpl;
    [rewrite <- app_assoc; reflexivity|reflexivity].
Qed.

(** [get_triplets] as a filter over the anchors followed by a map. *)
Lemma get_triplets_eq (vcf : list variant) (maxdist : Z) :
  get_triplets vcf maxdist
  = map (fun p => firstn 3 (window_positions (snp_positions_of vcf) p maxdist))
        (filter (fun p => Nat.eqb (List.length
                   (firstn 3 (window_positions (snp_positions_of vcf) p maxdist))) 3)
                (snp_positions_of vcf)).
Proof.
  unfold get_triplets.
  exact (get_triplets_fold_eq (fun p => firstn 3 (window_positions (snp_positions_of vcf) p maxdist))
           (snp_positions_of vcf) []).
Qed.

Lemma window_positions_sub (snps : list GenomePosition) (p : GenomePosition) (d1 d2 : Z) :
  d1 <= d2 ->
  (List.length (window_positions snps p d1) <= List.length (window_positions snps p d2))%nat.
Proof.
  intros Hd. unfold window_positions. apply filter_length_mono.
  intros q Hq. apply range_contains_iff in Hq. apply range_contains_iff. simpl in *. destruct Hq as [Hc Hr]. split; [exact Hc|lia].
Qed.

(** A negative [maxdist] gives no triplet; a larger [maxdist] never gives
    fewer triplets; and there are never more triplets than VCF records,
    since each SNP anchors at most one. *)
Theorem get_triplets_count (vcf : list variant) (d1 d2 : Z) :
  d1 <= d2 ->
  (d1 < 0 -> get_triplets vcf d1 = [])
  /\ (List.length (get_triplets vcf d1) <= List.length (get_triplets vcf d2))%nat
  /\ (List.length (get_triplets vcf d2) <= List.length vcf)%nat.
Proof.
  intros Hd. rewrite !get_triplets_eq, !length_map. split; [|split].
  - intros Hneg.
    rewrite (filter_ext_in _ (fun _ => false)); [rewrite filter_false; reflexivity|].
    intros p _. apply Nat.eqb_neq.
    destruct (window_positions (snp_positions_of vcf) p d1) as [|q w] eqn:Ew;
      [simpl; discriminate|].
    assert (Hq : In q (window_positions (snp_positions_of vcf) p d1)) by (rewrite Ew; left; reflexivity).
    unfold window_positions in Hq. apply filter_In in Hq. destruct Hq as [_ Hq].
    apply range_contains_iff in Hq. simpl in Hq. lia.
  - apply filter_length_mono. intros p Hp. apply Nat.eqb_eq in Hp. apply Nat.eqb_eq.
    rewrite length_firstn in *. pose proof (window_positions_sub (snp_positions_of vcf) p d1 d2 Hd).
    lia.
  - eapply Nat.le_trans; [apply filter_length_le|]. unfold snp_positions_of.
    rewrite length_map. lia.
Qed.

Lemma get_triplets_count_witness :
  get_triplets example_vcf (-1) = []
  /\ (List.length (get_triplets example_vcf 99) <= List.length (get_triplets example_vcf 100))%nat.
Proof.
  destruct (get_triplets_count example_vcf (-1) 99 ltac:(lia)) as [H1 _].
  destruct (get_triplets_count example_vcf 99 100 ltac:(lia)) as [_ [H2 _]].
  split; [apply H1; lia|exact H2].
Defined.

(** ** Triplets of a strictly sorted VCF *)

Lemma strongly_sorted_app_inv {A} (R : A -> A -> Prop) (l1 l2 : list A) :
  StronglySorted R (l1 ++ l2) ->
  StronglySorted R l2 /\ forall x y, In x l1 -> In y l2 -> R x y.
Proof.
  induction l1 as [|a l1 IH]; simpl; intros Hs; [split; [exact Hs|intros x y []]|].
  inversion Hs as [|? ? Hs' Ha]; subst. destruct (IH Hs') as [H2 Hr].
  split; [exact H2|]. intros x y [<-|Hx] Hy; [|apply Hr; assumption].
  rewrite Forall_forall in Ha. apply Ha, in_or_app. right. exact Hy.
Qed.

Lemma filter_none {A} (f : A -> bool) (l : list A) :
  (forall x, In x l -> f x = false) -> filter f l = [].
Proof.
  intros H. rewrite (filter_ext_in f (fun _ => false)); [apply filter_false|exact H].
Qed.

Lemma strictly_sorted_nodup (snps : list GenomePosition) :
  strictly_sorted_within_chrom snps -> NoDup snps.
Proof.
  induction snps as [|x l IH]; intros Hs; [constructor|].
  constructor.
  - intros Hin. specialize (Hs (chrom x)). simpl in Hs. rewrite String.eqb_refl in Hs.
    inversion Hs as [|? ? _ Hx]; subst. rewrite Forall_forall in Hx.
    assert (Hf : In x (filter (fun q => String.eqb (chrom q) (chrom x)) l))
      by (apply filter_In; split; [exact Hin|apply String.eqb_refl]).
    specialize (Hx x Hf). lia.
  - apply IH. intros c. specialize (Hs c). simpl in Hs.
    destruct (String.eqb (chrom x) c); [|exact Hs].
    inversion Hs; assumption.
Qed.

(** In a strictly sorted VCF the window of an anchor [p] (when not empty)
    starts with [p], followed by the later SNPs of [p]'s chromosome up to
    [pos p + maxdist]. *)
Lemma window_head (snps : list GenomePosition) (p : GenomePosition) (maxdist : Z) :
  strictly_sorted_within_chrom snps -> In p snps ->
  window_positions snps p maxdist <> [] ->
  window_positions snps p maxdist
  = p :: filter (fun q => String.eqb (chrom q) (chrom p) && (pos p <? pos q)
                          && (pos q <=? pos p + maxdist))%bool snps.
Proof.
  intros Hs Hp Hne.
  assert (Hd : 0 <= maxdist).
  { destruct (window_positions snps p maxdist) as [|q w] eqn:Ew; [congruence|].
    assert (Hq : In q (window_positions snps p maxdist)) by (rewrite Ew; left; reflexivity).
    unfold window_positions in Hq. apply filter_In in Hq. destruct Hq as [_ Hq].
    apply range_contains_iff in Hq. simpl in Hq. lia. }
  destruct (in_split p snps Hp) as [l1 [l2 ->]].
  specialize (Hs (chrom p)). rewrite filter_app in Hs. simpl in Hs.
  rewrite String.eqb_refl in Hs.
  destruct (strongly_sorted_app_inv _ _ _ Hs) as [Hs2 Hbefore].
  inversion Hs2 as [|? ? _ Hafter]; subst. rewrite Forall_forall in Hafter.
  unfold window_positions. rewrite !filter_app. simpl.
  assert (Hrp : range_contains (mkRange (chrom p) (pos p) (pos p + maxdist)) p = true)
    by (apply range_contains_iff; simpl; split; [reflexivity|lia]).
  rewrite Hrp, String.eqb_refl, Z.ltb_irrefl. simpl.
  rewrite (filter_none (range_contains (mkRange (chrom p) (pos p) (pos p + maxdist))) l1),
    (filter_none (fun q => String.eqb (chrom q) (chrom p) && (pos p <? pos q)
                           && (pos q <=? pos p + maxdist))%bool l1).
  - simpl. f_equal. apply filter_ext_in. intros q Hq.
    destruct (String.eqb (chrom q) (chrom p)) eqn:Ec.
    + apply String.eqb_eq in Ec.
      assert (Hlt : pos p < pos q).
      { apply Hafter. apply filter_In. split; [exact Hq|]. apply String.eqb_eq, Ec. }
      unfold range_contains. simpl. destruct (string_dec (chrom q) (chrom p)); [|congruence].
      rewrite (proj2 (Z.ltb_lt _ _) Hlt). simpl.
      destruct (pos p <=? pos q) eqn:E1; [reflexivity|]. apply Z.leb_gt in E1. lia.
    + simpl. unfold range_contains. simpl.
      destruct (string_dec (chrom q) (chrom p)) as [E|]; [|reflexivity].
      rewrite E, String.eqb_refl in Ec. discriminate.
  - intros q Hq. destruct (String.eqb (chrom q) (chrom p)) eqn:Ec; [|reflexivity].
    assert (Hlt : pos q < pos p).
    { apply (Hbefore q p); [apply filter_In; split; assumption|left; reflexivity]. }
    simpl. destruct (pos p <? pos q) eqn:E; [apply Z.ltb_lt in E; lia|reflexivity].
  - intros q Hq. apply not_true_iff_false. intros Hr.
    apply range_contains_iff in Hr. simpl in Hr. destruct Hr as [Hc Hr].
    assert (Hlt : pos q < pos p).
    { apply (Hbefore q p); [|left; reflexivity].
      apply filter_In. split; [exact Hq|]. apply String.eqb_eq, Hc. }
    lia.
Qed.

Lemma nodup_map_in {A B} (g : A -> B) (l : list A) :
  NoDup l -> (forall x y, In x l -> In y l -> g x = g y -> x = y) -> NoDup (map g l).
Proof.
  induction 1 as [|x l Hx Hnd IH]; intros Hinj; simpl; constructor.
  - intros Hin. apply in_map_iff in Hin. destruct Hin as [y [Hy Hyl]].
    assert (x = y) by (apply Hinj; [left; reflexivity|right; exact Hyl|symmetry; exact Hy]).
    subst y. contradiction.
  - apply IH. intros a b Ha Hb. apply Hinj; right; assumption.
Qed.

(** On a VCF whose SNPs are strictly increasing within each chromosome,
    every triplet starts with its anchor SNP [p], followed by the next two
    SNPs of [p]'s chromosome in [(pos p, pos p + maxdist]], and no
    triplet is emitted twice. *)
Theorem get_triplets_anchored (vcf : list variant) (maxdist : Z) :
  strictly_sorted_within_chrom (snp_positions_of vcf) ->
  NoDup (get_triplets vcf maxdist)
  /\ forall t, In t (get_triplets vcf maxdist) ->
       exists p, In p (snp_positions_of vcf)
         /\ t = p :: firstn 2 (filter (fun q => String.eqb (chrom q) (chrom p)
                                                 && (pos p <? pos q)
                                                 && (pos q <=? pos p + maxdist))%bool
                                      (snp_positions_of vcf)).
Proof.
  intros Hs.
  assert (Hhd : forall p, In p (snp_positions_of vcf) ->
            Nat.eqb (List.length (firstn 3 (window_positions (snp_positions_of vcf) p maxdist))) 3
            = true ->
            firstn 3 (window_positions (snp_positions_of vcf) p maxdist)
            = p :: firstn 2 (filter (fun q => String.eqb (chrom q) (chrom p)
                                              && (pos p <? pos q)
                                              && (pos q <=? pos p + maxdist))%bool
                                    (snp_positions_of vcf))).
  { intros p Hp H3. rewrite window_head; [reflexivity|exact Hs|exact Hp|].
    intros Hw. rewrite Hw in H3. discriminate. }
  rewrite get_triplets_eq. split.
  - apply nodup_map_in; [apply NoDup_filter, strictly_sorted_nodup, Hs|].
    intros x y Hx Hy Hxy. apply filter_In in Hx. apply filter_In in Hy.
    rewrite (Hhd x (proj1 Hx) (proj2 Hx)), (Hhd y (proj1 Hy) (proj2 Hy)) in Hxy.
    injection Hxy as Hxy. exact Hxy.
  - intros t Ht. apply in_map_iff in Ht. destruct Ht as [p [<- Hp]].
    apply filter_In in Hp. exists p. split; [exact (proj1 Hp)|].
    apply Hhd; apply Hp.
Qed.

Lemma get_triplets_anchored_witness :
  NoDup (get_triplets [mkVariant "chr1" 100; mkVariant "chr1" 150; mkVariant "chr1" 200;
                       mkVariant "chr1" 300; mkVariant "chr2" 100] 500).
Proof.
  apply get_triplets_anchored. intros c. unfold snp_positions_of.
  cbn [map filter chrom contig vpos].
  destruct (String.eqb "chr1" c) eqn:E1; destruct (String.eqb "chr2" c) eqn:E2;
    [apply String.eqb_eq in E1; apply String.eqb_eq in E2; congruence|..];
    repeat constructor.
Defined.

(** ** Aggregation *)

Lemma perm_filter {A} (f : A -> bool) (l l' : list A) :
  Permutation l l' -> Permutation (filter f l) (filter f l').
Proof.
  induction 1 as [|x l l' _ IH|x y l|l l' l'' _ IH1 _ IH2]; simpl.
  - constructor.
  - destruct (f x); [apply perm_skip|]; exact IH.
  - destruct (f x), (f y); try apply perm_swap; reflexivity.
  - eapply Permutation_trans; eassumption.
Qed.

Lemma aggregate_sorted_counts (nums : list nat) :
  Permutation (sort_nat (filter (fun n => Nat.ltb 0 n) nums))
              (filter (fun n => Nat.ltb 0 n) nums).
Proof. apply sort_nat_perm. Qed.

(** The outcome of [main] does not depend on the order of the triplets:
    per-triplet counts that are a permutation of each other give the same
    MOI and the same histogram (or the same error). *)
Theorem aggregate_permutation (nums nums' : list nat) :
  Permutation nums nums' -> aggregate nums = aggregate nums'.
Proof.
  intros Hp. unfold aggregate.
  assert (Hs : sort_nat (filter (fun n => Nat.ltb 0 n) nums)
               = sort_nat (filter (fun n => Nat.ltb 0 n) nums')).
  { apply sorted_perm_unique; [apply sort_nat_sorted|apply sort_nat_sorted|].
    rewrite !sort_nat_perm. apply perm_filter, Hp. }
  rewrite Hs. reflexivity.
Qed.

Lemma aggregate_permutation_witness :
  aggregate [3; 0; 1; 2]%nat = aggregate [2; 1; 3; 0]%nat.
Proof.
  apply aggregate_permutation.
  apply (Permutation_trans (l' := [3; 0; 2; 1]%nat)); [repeat constructor|].
  apply (Permutation_trans (l' := [2; 1; 3; 0]%nat)); [|reflexivity].
  apply (Permutation_app_comm [3; 0]%nat [2; 1]%nat).
Defined.

Lemma aggregate_error_spec (nums : list nat) (e : py_error) :
  aggregate nums = Error e -> e = IndexError /\ Forall (fun n => n = 0%nat) nums.
Proof.
  unfold aggregate. unfold py_index.
  set (s := sort_nat (filter (fun n => Nat.ltb 0 n) nums)).
  destruct (nth_error s (percentile_index (List.length s))) as [m|] eqn:En; simpl;
    intros H; [discriminate|].
  injection H as <-. split; [reflexivity|].
  assert (Hs : s = []).
  { destruct s as [|x s'] eqn:Es; [reflexivity|].
    exfalso. apply nth_error_None in En. rewrite <- Es in En.
    assert (Hlt : (percentile_index (List.length s) < List.length s)%nat)
      by (apply percentile_index_lt; rewrite Es; simpl; lia).
    lia. }
  pose proof (aggregate_sorted_counts nums) as Hp. fold s in Hp. rewrite Hs in Hp.
  apply Permutation_nil in Hp. apply Forall_forall. intros x Hx.
  destruct (Nat.ltb 0 x) eqn:Ex.
  - assert (Hin : In x (filter (fun n => Nat.ltb 0 n) nums)) by (apply filter_In; auto).
    rewrite Hp in Hin. destruct Hin.
  - apply Nat.ltb_ge in Ex. lia.
Qed.

(** The aggregation fails only with [IndexError], and only when every
    per-triplet count is 0. *)
Theorem aggregate_error (nums : list nat) (e : py_error) :
  aggregate nums = Error e -> e = IndexError /\ Forall (fun n => n = 0%nat) nums.
Proof. apply aggregate_error_spec. Qed.

Lemma aggregate_error_witness : Forall (fun n => n = 0%nat) [0; 0]%nat.
Proof.
  apply (proj2 (aggregate_error [0; 0]%nat IndexError ltac:(vm_compute; reflexivity))).
Defined.

Lemma aggregate_ok_spec (nums : list nat) (r : MoiResult) :
  aggregate nums = Ok r ->
  In (moi r) nums /\ (0 < moi r)%nat
  /\ sum_values (haplotype_counts r) = List.length (filter (fun n => Nat.ltb 0 n) nums).
Proof.
  unfold aggregate, py_index.
  set (s := sort_nat (filter (fun n => Nat.ltb 0 n) nums)).
  destruct (nth_error s (percentile_index (List.length s))) as [m|] eqn:En; simpl;
    intros H; [|discriminate].
  injection H as <-. simpl.
  pose proof (aggregate_sorted_counts nums) as Hp. fold s in Hp.
  apply nth_error_In in En. apply (Permutation_in _ Hp) in En.
  apply filter_In in En. destruct En as [Hin Hpos]. apply Nat.ltb_lt in Hpos.
  split; [exact Hin|split; [exact Hpos|]].
  rewrite (sum_values_counter nat Nat.eq_dec). apply Permutation_length, Hp.
Qed.

(** On success the MOI is one of the per-triplet counts and is positive,
    and the histogram counts every positive per-triplet count exactly
    once. *)
Theorem aggregate_ok (nums : list nat) (r : MoiResult) :
  aggregate nums = Ok r ->
  In (moi r) nums /\ (0 < moi r)%nat
  /\ sum_values (haplotype_counts r) = List.length (filter (fun n => Nat.ltb 0 n) nums).
Proof. apply aggregate_ok_spec. Qed.

Lemma aggregate_ok_witness : In 9%nat [1; 1; 2; 2; 2; 3; 4; 5; 8; 9]%nat.
Proof.
  apply (proj1 (aggregate_ok [1; 1; 2; 2; 2; 3; 4; 5; 8; 9]%nat
                  (mkMoiResult 9 (counter Nat.eq_dec [1; 1; 2; 2; 2; 3; 4; 5; 8; 9]%nat))
                  ltac:(vm_compute; reflexivity))).
Defined.

(** ** The region fetched for a triplet *)




(** ** The MOI reported by main *)


